(** * Series RLC circuit simulator: model of the solver core and its properties

    The development embeds the Python sources of the simulator as Rocq
    functions: [core/rlc_model.py], [core/signals.py], the solver of
    [core/laplace_solver.py] (the file [laplace_solver - copia.py]), the
    [simulate] handler of [ui/main_window.py] and [get_parameters] of
    [ui/parameter_form.py].  It then proves the properties that the written
    specification states about them, and further properties of the code.

    Numbers.  Python [float] and NumPy [float64] share one set of values:
    the finite ones, the two infinities and NaN.  The finite values are
    idealised as real numbers (no rounding, no underflow, no overflow, one
    zero); the special values are kept, because the code produces them and
    reacts to them: NumPy returns [inf]/[nan] where Python raises
    [ZeroDivisionError].  The properties below therefore say which formula
    the code evaluates and which branch it takes on the values it has
    computed.

    Errors.  A function that can raise returns a [result]; [x ← m; k] stops
    at the first exception, [try_except] is a [try] block.

    Libraries.  SymPy's algebra ([simplify], [inverse_laplace_transform],
    [lambdify]) and the drawing on the Matplotlib figure are not part of
    the repository; they are parameters of the solver and of the window.
    The few NumPy functions that the code calls on arrays ([linspace],
    boolean masks, [gradient]) are written out after NumPy's documented
    behaviour. *)

From Stdlib Require Import Reals Lra.
From stdpp Require Import base option list gmap strings.

Local Open Scope R_scope.

(** ** Python exceptions and results *)

Module Py.

Inductive exn : Type :=
| ValueError (msg : string)
| ZeroDivisionError
| IndexError
| TypeError (msg : string)
| NotImplementedError (msg : string).

Inductive result (A : Type) : Type :=
| Ok (a : A)
| Raise (e : exn).
Arguments Ok {A} a.
Arguments Raise {A} e.

#[global] Instance result_ret : MRet result := fun A a => Ok a.
#[global] Instance result_bind : MBind result := fun A B f m =>
  match m with
  | Ok a => f a
  | Raise e => Raise e
  end.
#[global] Instance result_fmap : FMap result := fun A B f m =>
  match m with
  | Ok a => Ok (f a)
  | Raise e => Raise e
  end.

(** [try: m except: h] is [try m except Exception as e: h e]. *)
Definition try_except {A} (m : result A) (h : exn → result A) : result A :=
  match m with
  | Ok a => Ok a
  | Raise e => h e
  end.

(** [seq[i]] for [0 <= i]: [IndexError] out of range. *)
Definition getitem {A} (l : list A) (i : nat) : result A :=
  match l !! i with
  | Some a => Ok a
  | None => Raise IndexError
  end.

(** [seq[i] = v] for [0 <= i]: [IndexError] out of range. *)
Definition setitem {A} (l : list A) (i : nat) (v : A) : result (list A) :=
  if decide (i < length l)%nat then Ok (<[i := v]> l) else Raise IndexError.

(** [d.get(key, default)]. *)
Definition dict_get {V} (d : gmap string V) (key : string) (default : V) : V :=
  match d !! key with
  | Some v => v
  | None => default
  end.

End Py.
Import Py.

(** ** Floating-point values *)

#[global] Instance Rlt_decision : RelDecision Rlt := Rlt_dec.
#[global] Instance Rle_decision : RelDecision Rle := Rle_dec.
#[global] Instance Req_decision : EqDecision R := Req_dec_T.

Module Float.

(** The values of a [float]: a finite number, read as the real number it
    stands for, or one of the three special values.  The operations below
    are exact on finite values and follow IEEE 754 on the special ones. *)
Inductive float : Type :=
| Fin (x : R)
| PInf
| NInf
| NaN.

Definition neg (a : float) : float :=
  match a with
  | Fin x => Fin (- x)
  | PInf => NInf
  | NInf => PInf
  | NaN => NaN
  end.

Definition add (a b : float) : float :=
  match a, b with
  | Fin x, Fin y => Fin (x + y)
  | NaN, _ | _, NaN => NaN
  | PInf, NInf | NInf, PInf => NaN
  | PInf, _ | _, PInf => PInf
  | NInf, _ | _, NInf => NInf
  end.

Definition sub (a b : float) : float := add a (neg b).

(** The infinity with the sign of [x], NaN at zero. *)
Definition signed_inf (x : R) : float :=
  if decide (0 < x) then PInf else if decide (x < 0) then NInf else NaN.

Definition mul (a b : float) : float :=
  match a, b with
  | Fin x, Fin y => Fin (x * y)
  | NaN, _ | _, NaN => NaN
  | Fin x, PInf | PInf, Fin x => signed_inf x
  | Fin x, NInf | NInf, Fin x => signed_inf (- x)
  | PInf, PInf | NInf, NInf => PInf
  | PInf, NInf | NInf, PInf => NInf
  end.

(** Reciprocal as IEEE division computes it: [1/0] is [inf], [1/inf] is 0. *)
Definition inv (a : float) : float :=
  match a with
  | Fin y => if decide (y = 0) then PInf else Fin (/ y)
  | PInf | NInf => Fin 0
  | NaN => NaN
  end.

(** NumPy's true division on [float64]: never raises. *)
Definition np_div (a b : float) : float := mul a (inv b).

(** Python's [/] on [float]: raises on a zero divisor. *)
Definition py_div (a b : float) : result float :=
  match b with
  | Fin y => if decide (y = 0) then Raise ZeroDivisionError else Ok (np_div a b)
  | _ => Ok (np_div a b)
  end.

(** [np.sqrt]: NaN (and a warning, no exception) on a negative argument. *)
Definition np_sqrt (a : float) : float :=
  match a with
  | Fin x => if decide (x < 0) then NaN else Fin (sqrt x)
  | PInf => PInf
  | NInf | NaN => NaN
  end.

Definition abs (a : float) : float :=
  match a with
  | Fin x => Fin (Rabs x)
  | PInf | NInf => PInf
  | NaN => NaN
  end.

(** Comparisons: every comparison with NaN is false. *)
Definition ltb (a b : float) : bool :=
  match a, b with
  | Fin x, Fin y => bool_decide (x < y)
  | NaN, _ | _, NaN => false
  | _, NInf | PInf, _ => false
  | NInf, _ | _, PInf => true
  end.

Definition eqb (a b : float) : bool :=
  match a, b with
  | Fin x, Fin y => bool_decide (x = y)
  | PInf, PInf | NInf, NInf => true
  | _, _ => false
  end.

Definition leb (a b : float) : bool := ltb a b || eqb a b.
Definition gtb (a b : float) : bool := ltb b a.
Definition geb (a b : float) : bool := leb b a.

(** Python's [max(a, b)]: keeps [a] unless [b > a]. *)
Definition py_max (a b : float) : float := if gtb b a then b else a.

(** [np.pi]. *)
Definition pi : float := Fin PI.

End Float.
Import Float.

Declare Scope float_scope.
Delimit Scope float_scope with fl.
Bind Scope float_scope with float.
Infix "+" := Float.add : float_scope.
Infix "-" := Float.sub : float_scope.
Infix "*" := Float.mul : float_scope.
Infix "/" := Float.np_div : float_scope.
Notation "- x" := (Float.neg x) : float_scope.
Infix "<?" := Float.ltb : float_scope.
Infix "<=?" := Float.leb : float_scope.
Infix ">?" := Float.gtb : float_scope.
Infix ">=?" := Float.geb : float_scope.
Infix "=?" := Float.eqb : float_scope.
Coercion Fin : R >-> float.

Local Open Scope float_scope.

(** ** SymPy expressions *)

Module Sympy.

Inductive Expr : Type :=
| Num (x : float)
| Symbol (name : string)
| Add (a b : Expr)
| Sub (a b : Expr)
| Mul (a b : Expr)
| Div (a b : Expr)
| Pow (a b : Expr)
| exp (a : Expr)
| Function (name : string) (arg : Expr).

End Sympy.

(** ** NumPy arrays *)

Module Numpy.

(** A one-dimensional [float64] array. *)
Abbreviation ndarray := (list float).

Definition zeros (n : nat) : ndarray := replicate n (Fin 0).
Definition zeros_like (t : ndarray) : ndarray := zeros (length t).
Definition ones_like (t : ndarray) : ndarray := replicate (length t) (Fin 1).

(** [np.arange(0, num)] as floats. *)
Definition arange (num : nat) : ndarray := (λ k, Fin (INR k)) <$> seq 0 num.

(** [np.linspace(start, stop, num)] with the default [endpoint=True]:
    [arange(num) * step + start], the last sample set to [stop]. *)
Definition linspace (start stop : float) (num : nat) : ndarray :=
  let div := Fin (INR (num - 1)) in
  let delta := stop - start in
  let step := delta / div in
  let y :=
    if step =? Fin 0
    then (λ k, k / div * delta) <$> arange num
    else (λ k, k * step) <$> arange num in
  let y := (λ v, v + start) <$> y in
  if decide (1 < num)%nat then <[(num - 1)%nat := stop]> y else y.

(** [arr[mask] = v] for a boolean mask of the shape of [arr]. *)
Definition mask_set (arr : ndarray) (mask : list bool) (v : float) : ndarray :=
  zip_with (λ x (m : bool), if m then v else x) arr mask.

(** [arr[mask]]: the selected entries, in order. *)
Fixpoint mask_select (arr : ndarray) (mask : list bool) : ndarray :=
  match arr, mask with
  | x :: arr', m :: mask' =>
      if m then x :: mask_select arr' mask' else mask_select arr' mask'
  | _, _ => []
  end.

(** [arr[mask] = values]: the selected entries take [values] in order. *)
Fixpoint mask_put (arr : ndarray) (mask : list bool) (values : ndarray) : ndarray :=
  match arr, mask with
  | x :: arr', m :: mask' =>
      if m then
        match values with
        | v :: values' => v :: mask_put arr' mask' values'
        | [] => x :: mask_put arr' mask' []
        end
      else x :: mask_put arr' mask' values
  | _, _ => arr
  end.

(** [np.diff]. *)
Fixpoint diff (x : ndarray) : ndarray :=
  match x with
  | a :: (b :: _) as x' => (b - a) :: diff x'
  | _ => []
  end.

(** Interior of [np.gradient] for constant spacing [h]:
    [(f[2:] - f[:-2]) / (2 * h)]. *)
Fixpoint gradient_interior_uniform (f : ndarray) (h : float) : ndarray :=
  match f with
  | a :: (_ :: c :: _) as f' => (c - a) / (Fin 2 * h) :: gradient_interior_uniform f' h
  | _ => []
  end.

(** Interior of [np.gradient] for spacings [dx = diff x]:
    [a * f[:-2] + b * f[1:-1] + c * f[2:]] with NumPy's coefficients. *)
Fixpoint gradient_interior (f dx : ndarray) : ndarray :=
  match f, dx with
  | f0 :: (f1 :: f2 :: _) as f', dx1 :: (dx2 :: _) as dx' =>
      let a := - dx2 / (dx1 * (dx1 + dx2)) in
      let b := (dx2 - dx1) / (dx1 * dx2) in
      let c := dx1 / (dx2 * (dx1 + dx2)) in
      (a * f0 + b * f1 + c * f2) :: gradient_interior f' dx'
  | _, _ => []
  end.

(** [np.gradient(f, x)] for one-dimensional [f] and coordinates [x],
    [edge_order=1]: second-order differences inside, first-order at both
    ends; [ValueError] on mismatched lengths or fewer than two samples. *)
Definition gradient (f x : ndarray) : result ndarray :=
  if decide (length x ≠ length f) then
    Raise (ValueError "when 1d, distances must match the length of the corresponding dimension")
  else
    let dx := diff x in
    dx0 ← getitem dx 0;
    let uniform := forallb (λ d, d =? dx0) dx in
    if decide (length f < 2)%nat then
      Raise (ValueError "Shape of array too small to calculate a numerical gradient, at least (edge_order + 1) elements are required.")
    else
      let interior :=
        if uniform then gradient_interior_uniform f dx0 else gradient_interior f dx in
      let dx_n := if uniform then dx0 else default dx0 (last dx) in
      f0 ← getitem f 0;
      f1 ← getitem f 1;
      fn1 ← getitem f (length f - 1);
      fn2 ← getitem f (length f - 2);
      Ok ((f1 - f0) / dx0 :: interior ++ [(fn1 - fn2) / dx_n]).

(** What a lambdified expression returns at one sample: a NumPy number, or
    a SymPy expression that is not a number.  The function that [lambdify]
    generates binds a symbol other than its argument to itself, so an
    expression with such a free symbol evaluates to an expression again. *)
Inductive scalar : Type :=
| SFloat (x : float)
| SComplex (re im : float)
| SObject (e : Sympy.Expr).

Definition as_float (v : scalar) : option float :=
  match v with SFloat x => Some x | _ => None end.

Definition as_complex (v : scalar) : option (float * float) :=
  match v with
  | SFloat x => Some (x, Fin 0)
  | SComplex re im => Some (re, im)
  | SObject _ => None
  end.

(** The real part of a number; a SymPy expression has none. *)
Definition scalar_re (v : scalar) : option float :=
  match v with
  | SFloat x => Some x
  | SComplex re _ => Some re
  | SObject _ => None
  end.

(** The result of [np.array] on a list of scalars, by its dtype: [float64]
    when all are floats, [complex128] when all are numbers and one is
    complex, [object] when one is a SymPy expression. *)
Inductive array : Type :=
| FloatArray (a : ndarray)
| ComplexArray (a : list (float * float))
| ObjectArray (a : list scalar).

Definition np_array (vals : list scalar) : array :=
  match mapM as_float vals with
  | Some a => FloatArray a
  | None =>
      match mapM as_complex vals with
      | Some a => ComplexArray a
      | None => ObjectArray vals
      end
  end.

(** [np.real] on the entries of a complex array. *)
Definition real (a : list (float * float)) : ndarray := fst <$> a.

End Numpy.

(** ** Python complex numbers *)

Module Complex.

Record complex : Type := mk { re : float; im : float }.

Definition of_float (x : float) : complex := mk x (Fin 0).

(** The imaginary unit [1j]. *)
Definition j : complex := mk (Fin 0) (Fin 1).

Definition add (a b : complex) : complex := mk (re a + re b) (im a + im b).

Definition mul (a b : complex) : complex :=
  mk (re a * re b - im a * im b) (re a * im b + im a * re b).

End Complex.

(** ** core/rlc_model.py *)

Module RLCModel.

Record RLCModel : Type := mk {
  R : float;
  L : float;
  C : float;
  omega_0 : float;
  zeta : float;
  f_0 : float;
  damping_type : string;
  omega_d : float
}.

(** [_calculate_characteristic_params], on the three attributes that
    [__init__] has just stored; the result is the completed object. *)
Definition _calculate_characteristic_params (R L C : float) : result RLCModel :=
  let omega_0 := Fin 1 / Float.np_sqrt (L * C) in
  half_R ← Float.py_div R (Fin 2);
  C_over_L ← Float.py_div C L;
  let zeta := half_R * Float.np_sqrt C_over_L in
  let f_0 := omega_0 / (Fin 2 * Float.pi) in
  if zeta <? Fin 1 then
    Ok (mk R L C omega_0 zeta f_0 "subamortiguado"
           (omega_0 * Float.np_sqrt (Fin 1 - zeta * zeta)))
  else if zeta =? Fin 1 then
    Ok (mk R L C omega_0 zeta f_0 "críticamente amortiguado" (Fin 0))
  else
    Ok (mk R L C omega_0 zeta f_0 "sobreamortiguado" (Fin 0)).

Definition __init__ (R L C : float) : result RLCModel :=
  _calculate_characteristic_params R L C.

(** The argument of [get_impedance]: a Python [float], or a NumPy
    [float64] scalar such as an entry of a frequency array.  The attributes
    of the model are Python floats, so the type of the argument decides
    which division computes the capacitive reactance: Python's raises on a
    zero divisor, NumPy's returns [inf] or [nan]. *)
Inductive frequency : Type :=
| python_float (f : float)
| numpy_float64 (f : float).

Definition frequency_value (frequency : frequency) : float :=
  match frequency with python_float f | numpy_float64 f => f end.

Definition get_impedance (self : RLCModel) (frequency : frequency)
  : result Complex.complex :=
  let omega := Fin 2 * Float.pi * frequency_value frequency in
  let X_L := omega * L self in
  X_C ← match frequency with
        | python_float _ => Float.py_div (Fin 1) (omega * C self)
        | numpy_float64 _ => Ok (Fin 1 / (omega * C self))
        end;
  Ok (Complex.add (Complex.of_float (R self))
                  (Complex.mul Complex.j (Complex.of_float (X_L - X_C)))).

End RLCModel.

(** ** core/signals.py *)

Module SignalGenerator.
Import Numpy.

(** The [params] dictionary of a signal. *)
Abbreviation params := (gmap string float).

Definition unknown_signal (signal_type : string) : exn :=
  ValueError ("Tipo de señal no reconocido: " +:+ signal_type).

Definition _step_signal (p : params) (t : ndarray) : ndarray :=
  let A := dict_get p "amplitude" (Fin 1) in
  (λ one, A * one) <$> ones_like t.

Definition _pulse_signal (p : params) (t : ndarray) : ndarray :=
  let A := dict_get p "amplitude" (Fin 1) in
  let a := dict_get p "a" (Fin (1 / 1000)) in
  let signal := zeros_like t in
  let signal := mask_set signal ((λ x, x >=? Fin 0) <$> t) A in
  let signal := mask_set signal ((λ x, x >=? a) <$> t) (Fin 0) in
  signal.

Definition _ramp_signal (p : params) (t : ndarray) : ndarray :=
  let A := dict_get p "amplitude" (Fin 1) in
  let signal := zeros_like t in
  let mask := (λ x, x >=? Fin 0) <$> t in
  mask_put signal mask ((λ x, A * x) <$> mask_select t mask).

Definition _delayed_signal (p : params) (t : ndarray) : ndarray :=
  let A := dict_get p "amplitude" (Fin 1) in
  let t0 := dict_get p "t0" (Fin (1 / 1000)) in
  let signal := zeros_like t in
  mask_set signal ((λ x, x >=? t0) <$> t) A.

Definition _impulse_signal (p : params) (t : ndarray) : result ndarray :=
  let A := dict_get p "amplitude" (Fin 1) in
  dt ← (if decide (1 < length t)%nat
        then t1 ← getitem t 1; t0 ← getitem t 0; Ok (t1 - t0)
        else Ok (Fin (1 / 10000)));
  let width := dt * Fin 2 in
  height ← (if decide (1 < length t)%nat
            then Ok (A / width)
            else Float.py_div A width);
  let signal := zeros_like t in
  Ok (mask_set signal ((λ x, Float.abs x <? width / Fin 2) <$> t) height).

Definition generate_signal (signal_type : string) (p : params) (time_array : ndarray)
  : result ndarray :=
  if decide (signal_type = "step") then Ok (_step_signal p time_array)
  else if decide (signal_type = "pulse") then Ok (_pulse_signal p time_array)
  else if decide (signal_type = "ramp") then Ok (_ramp_signal p time_array)
  else if decide (signal_type = "delayed") then Ok (_delayed_signal p time_array)
  else if decide (signal_type = "impulse") then _impulse_signal p time_array
  else Raise (unknown_signal signal_type).

End SignalGenerator.

(** ** core/laplace_solver.py *)

Module LaplaceSolver.
Import Numpy Sympy SignalGenerator.

(** The dictionary returned by [solve]. *)
Record Solution : Type := mkSolution {
  symbolic : Expr;
  time : ndarray;
  current : ndarray;
  voltage_R : ndarray;
  voltage_L : ndarray;
  voltage_C : ndarray;
  input_signal : ndarray
}.

(** The functions of SymPy that the solver calls.  The function that
    [lambdify] returns gives, at a sample, a number or a SymPy expression
    ([scalar]), or raises. *)
Record sympy : Type := mkSympy {
  simplify : Expr → result Expr;
  inverse_laplace_transform : Expr → Expr → Expr → result Expr;
  lambdify : Expr → Expr → result (float → result scalar)
}.

(** [for k in ks: st = body(k, st)], stopping at the first exception. *)
Fixpoint for_loop {S : Type} (ks : list nat) (body : nat → S → result S) (st : S)
  : result S :=
  match ks with
  | [] => Ok st
  | k :: ks' => st' ← body k st; for_loop ks' body st'
  end.

(** [range(1, n)]. *)
Definition range1 (n : nat) : list nat := seq 1 (n - 1).

(** The symbols created by [__init__]. *)
Definition t : Expr := Symbol "t".
Definition s : Expr := Symbol "s".

Definition _get_signal_laplace (signal_type : string) (p : params) : result Expr :=
  let A := dict_get p "amplitude" (Fin 1) in
  if decide (signal_type = "step") then
    Ok (Div (Num A) s)
  else if decide (signal_type = "pulse") then
    let a := dict_get p "a" (Fin (1 / 1000)) in
    Ok (Mul (Div (Num A) s) (Sub (Num (Fin 1)) (exp (Mul (Num (- a)) s))))
  else if decide (signal_type = "ramp") then
    Ok (Div (Num A) (Pow s (Num (Fin 2))))
  else if decide (signal_type = "delayed") then
    let t0 := dict_get p "t0" (Fin (1 / 1000)) in
    Ok (Mul (Div (Num A) s) (exp (Mul (Num (- t0)) s)))
  else if decide (signal_type = "impulse") then
    Ok (Num A)
  else Raise (unknown_signal signal_type).

Definition _numerical_inverse_laplace (I_s : Expr) (R L C : float) : Expr := I_s.

Definition _get_duration (signal_type : string) (p : params) : float :=
  if decide (signal_type = "pulse") then
    let a := dict_get p "a" (Fin (1 / 1000)) in
    Float.py_max (a * Fin 10) (Fin (1 / 100))
  else if decide (signal_type = "delayed") then
    let t0 := dict_get p "t0" (Fin (1 / 1000)) in
    Float.py_max (t0 * Fin 10) (Fin (1 / 100))
  else Fin (2 / 100).

(** One pass of the Euler loop, on the arrays [i] and [v_c]. *)
Definition euler_body (input_signal : ndarray) (R L C dt : float)
    (k : nat) (st : ndarray * ndarray) : result (ndarray * ndarray) :=
  let '(i, v_c) := st in
  v_in ← getitem input_signal (k - 1);
  i_prev ← getitem i (k - 1);
  v_prev ← getitem v_c (k - 1);
  let di_dt := (v_in - R * i_prev - v_prev) / L in
  i ← setitem i k (i_prev + di_dt * dt);
  i_prev ← getitem i (k - 1);
  let dv_c_dt := i_prev / C in
  v_prev ← getitem v_c (k - 1);
  v_c ← setitem v_c k (v_prev + dv_c_dt * dt);
  Ok (i, v_c).

Definition _numerical_simulation (time_array input_signal : ndarray) (R L C : float)
  : result ndarray :=
  t1 ← getitem time_array 1;
  t0 ← getitem time_array 0;
  let dt := t1 - t0 in
  let n := length time_array in
  st ← for_loop (range1 n) (euler_body input_signal R L C dt) (zeros n, zeros n);
  Ok st.1.

(** The current trace that [_generate_numerical_solution] returns: a
    [float64] array, or the object array that [np.array] has made of the
    values when one of them is a SymPy expression. *)
Inductive trace : Type :=
| FloatTrace (a : ndarray)
| ObjectTrace (a : list scalar).

(** The exception of SymPy's conversion of an expression with a free symbol
    to [float]. *)
Definition not_a_float : exn := TypeError "Cannot convert expression to float".

Definition _calculate_voltage_L (time current : ndarray) (L : float) : result ndarray :=
  di_dt ← gradient current time;
  Ok ((λ d, L * d) <$> (di_dt : ndarray)).

Definition trapezoid_body (current : ndarray) (C dt : float) (i : nat) (v_c : ndarray)
  : result ndarray :=
  v_prev ← getitem v_c (i - 1);
  c_i ← getitem current i;
  c_prev ← getitem current (i - 1);
  setitem v_c i (v_prev + (c_i + c_prev) / Fin 2 * dt / C).

Definition _calculate_voltage_C (time current : ndarray) (C : float) : result ndarray :=
  t1 ← getitem time 1;
  t0 ← getitem time 0;
  let dt := t1 - t0 in
  for_loop (range1 (length current)) (trapezoid_body current C dt) (zeros_like current).

Section Solver.
Variable sp : sympy.

(** The [try] block covers [lambdify], the evaluations and [np.array];
    [np.iscomplexobj] is true of a complex array only, of which [np.real]
    keeps the real parts.  An object array raises nothing here and is
    returned as it is. *)
Definition _generate_numerical_solution (i_t : Expr) (signal_type : string) (p : params)
    (R L C : float) : result (ndarray * trace * ndarray) :=
  let duration := _get_duration signal_type p in
  let time_array := linspace (Fin 0) duration 2000 in
  input_signal_array ← generate_signal signal_type p time_array;
  current_array ←
    try_except
      (i_func ← lambdify sp t i_t;
       vals ← mapM i_func time_array;
       match np_array vals with
       | ComplexArray current_array => Ok (FloatTrace (real current_array))
       | FloatArray current_array => Ok (FloatTrace current_array)
       | ObjectArray current_array => Ok (ObjectTrace current_array)
       end)
      (λ e, FloatTrace <$> _numerical_simulation time_array input_signal_array R L C);
  Ok (time_array, current_array, input_signal_array).

(** On an object trace, [current_array * R] is an object array again, and
    the next step, [_calculate_voltage_L], stops: [np.gradient] combines
    neighbouring entries with its weights and stores the results in a
    [float64] array, and the conversion of an expression that still has its
    free symbol raises [TypeError].  No [try] encloses that call. *)

Definition solve (rlc_model : RLCModel.RLCModel) (signal_type : string) (p : params)
  : result Solution :=
  let R := RLCModel.R rlc_model in
  let L := RLCModel.L rlc_model in
  let C := RLCModel.C rlc_model in
  V_s ← _get_signal_laplace signal_type p;
  let Z_s := Add (Add (Num R) (Mul s (Num L))) (Div (Num (Fin 1)) (Mul s (Num C))) in
  let I_s := Div V_s Z_s in
  I_s ← simplify sp I_s;
  i_t ← try_except
           (i_t ← inverse_laplace_transform sp I_s s t; simplify sp i_t)
           (λ e, Ok (_numerical_inverse_laplace I_s R L C));
  '(time_array, current_array, input_signal_array) ←
    _generate_numerical_solution i_t signal_type p R L C;
  match current_array with
  | FloatTrace current_array =>
      let voltage_R := (λ x, x * R) <$> current_array in
      voltage_L ← _calculate_voltage_L time_array current_array L;
      voltage_C ← _calculate_voltage_C time_array current_array C;
      Ok (mkSolution i_t time_array current_array voltage_R voltage_L voltage_C
                     input_signal_array)
  | ObjectTrace _ => Raise not_a_float
  end.

End Solver.

End LaplaceSolver.

(** ** ui/main_window.py: the [simulate] handler *)

Module MainWindow.
Import Sympy SignalGenerator.

(** The dictionary built by [ParameterForm.get_parameters]. *)
Record parameters : Type := mkParameters {
  R : float;
  L : float;
  C : float;
  signal_type : string;
  signal_params : params
}.

(** The message box that ends a call of [simulate]. *)
Inductive message : Type :=
| warning (title text : string)
| information (title text : string)
| critical (title : string) (e : exn).

(** The attributes of the window that [simulate] assigns or mutates: the
    model, the text of the solution pane, and the Matplotlib figure, whose
    states are the values of a type [Fig] that the view fixes. *)
Record MainWindow {Fig : Type} : Type := mk {
  rlc_model : option RLCModel.RLCModel;
  solution_text : string;
  figure : Fig
}.
Arguments MainWindow : clear implicits.
Arguments mk {Fig} rlc_model solution_text figure.

(** The presentation layer: the formatting of the symbolic solution and the
    calls that draw.  [figure_clear] is [figure.clear()].  [plot_results]
    is [Plotter.plot_results] on the figure and the arrays of the solution:
    it returns the figure as it leaves it, also when it raises, and it may
    raise after it has added axes.  [canvas_draw] is [canvas.draw()], which
    renders the figure and may raise as well. *)
Record view {Fig : Type} : Type := mkView {
  _format_symbolic_solution : Expr → result string;
  figure_clear : Fig → Fig;
  plot_results : Fig → LaplaceSolver.Solution → string → Fig * result unit;
  canvas_draw : Fig → result unit
}.
Arguments view : clear implicits.
Arguments mkView {Fig} _format_symbolic_solution figure_clear plot_results canvas_draw.

Section Simulate.
Context {Fig : Type}.
Variable sp : LaplaceSolver.sympy.
Variable ui : view Fig.

Definition simulate (self : MainWindow Fig) (get_parameters : result parameters)
  : MainWindow Fig * message :=
  let error := critical "Error" in
  match get_parameters with
  | Raise e => (self, error e)
  | Ok p =>
    if (R p <=? Fin 0) || (L p <=? Fin 0) || (C p <=? Fin 0) then
      (self, warning "Error" "Los valores de R, L y C deben ser positivos")
    else
      match RLCModel.__init__ (R p) (L p) (C p) with
      | Raise e => (self, error e)
      | Ok model =>
        let self := mk (Some model) (solution_text self) (figure self) in
        match LaplaceSolver.solve sp model (signal_type p) (signal_params p) with
        | Raise e => (self, error e)
        | Ok solution =>
          match _format_symbolic_solution ui (LaplaceSolver.symbolic solution) with
          | Raise e => (self, error e)
          | Ok formatted_solution =>
            let self := mk (rlc_model self) formatted_solution (figure self) in
            let self :=
              mk (rlc_model self) (solution_text self) (figure_clear ui (figure self)) in
            let '(fig, plotted) :=
              plot_results ui (figure self) solution (signal_type p) in
            let self := mk (rlc_model self) (solution_text self) fig in
            match plotted with
            | Raise e => (self, error e)
            | Ok _ =>
              match canvas_draw ui (figure self) with
              | Raise e => (self, error e)
              | Ok _ =>
                (self, information "Éxito" "Simulación completada correctamente")
              end
            end
          end
        end
      end
  end.

End Simulate.

End MainWindow.

(** ** Reading the model *)

(** The value of an expression in the transform variable [s] at a real
    point [sv] of the half-line [0 < s], where the one-sided transforms of
    the five signals converge.  [None] where the expression has no real
    value there: another symbol, a non-finite constant, a zero divisor, a
    power of a base that is not positive, a function other than [exp]. *)
Fixpoint denote (sv : R) (e : Sympy.Expr) : option R :=
  match e with
  | Sympy.Num (Fin x) => Some x
  | Sympy.Num _ => None
  | Sympy.Symbol name => if decide (name = "s") then Some sv else None
  | Sympy.Add a b => x ← denote sv a; y ← denote sv b; Some (x + y)%R
  | Sympy.Sub a b => x ← denote sv a; y ← denote sv b; Some (x - y)%R
  | Sympy.Mul a b => x ← denote sv a; y ← denote sv b; Some (x * y)%R
  | Sympy.Div a b =>
      x ← denote sv a; y ← denote sv b;
      if decide (y = 0%R) then None else Some (x / y)%R
  | Sympy.Pow a b =>
      x ← denote sv a; y ← denote sv b;
      if decide (0 < x)%R then Some (Rpower x y) else None
  | Sympy.exp a => x ← denote sv a; Some (Rtrigo_def.exp x)
  | Sympy.Function _ _ => None
  end.

(** The five recognised signal kinds. *)
Definition signal_types : list string := ["step"; "pulse"; "ramp"; "delayed"; "impulse"].

(** The Euler recurrence as the specification writes it, on real numbers:
    the pair [(i[k], v_C[k])] for the input samples [V_in]. *)
Fixpoint euler_spec (r l c dt : R) (V_in : nat → R) (k : nat) : R * R :=
  match k with
  | O => (0, 0)%R
  | S k' =>
      let '(i, v_C) := euler_spec r l c dt V_in k' in
      ((i + dt * (V_in k' - r * i - v_C) / l)%R, (v_C + dt * i / c)%R)
  end.

(** The array [f(0), ..., f(n-1)]. *)
Definition tabulate {A} (f : nat → A) (n : nat) : list A := f <$> seq 0 n.

(** The arrays [i] and [v_c] of the Euler loop once the passes [1..j] are
    done: the entries up to [j] hold the specification's sequence, the rest
    is still zero. *)
Definition euler_state (r l c dt : R) (V_in : nat → R) (n j : nat)
  : Numpy.ndarray * Numpy.ndarray :=
  (tabulate (λ k, Fin (if decide (k ≤ j)%nat then (euler_spec r l c dt V_in k).1 else 0%R)) n,
   tabulate (λ k, Fin (if decide (k ≤ j)%nat then (euler_spec r l c dt V_in k).2 else 0%R)) n).

(** ** Stand-ins for SymPy and for the view, to run the solver on examples *)

Module Stub.
Import Numpy Sympy.

(** [np.exp]. *)
Definition np_exp (a : float) : float :=
  match a with
  | Fin x => Fin (Rtrigo_def.exp x)
  | PInf => PInf
  | NInf => Fin 0
  | NaN => NaN
  end.

(** A value inside the function that [lambdify] generates: a NumPy number,
    or a SymPy expression. *)
Inductive value : Type :=
| number (x : float)
| expression (e : Expr).

Definition to_expr (x : value) : Expr :=
  match x with number x => Num x | expression e => e end.

(** An arithmetic operator: NumPy's on two numbers; SymPy's as soon as one
    operand is an expression, which builds an expression and never raises. *)
Definition binary (sym : Expr → Expr → Expr) (num : float → float → float)
    (x y : value) : value :=
  match x, y with
  | number a, number b => number (num a b)
  | _, _ => expression (sym (to_expr x) (to_expr y))
  end.

(** The exception of a NumPy function applied to a SymPy expression. *)
Definition no_loop (name : string) : exn :=
  TypeError ("loop of ufunc does not support argument 0 of type Symbol which has no callable "
             +:+ name +:+ " method").

(** The function that [lambdify] makes of an expression in the argument
    [arg], for expressions of numbers, symbols, the four operations and
    [exp], with NumPy's arithmetic on numbers: a division by zero gives
    [inf] or [nan] and a warning, no exception.  A symbol other than the
    argument stands for itself, and what is computed from it is a SymPy
    expression; only [numpy.exp] raises on an expression.  A power is
    covered where SymPy computes it, on an expression. *)
Fixpoint evaluate (arg : string) (e : Expr) (v : float) : result value :=
  match e with
  | Num x => Ok (number x)
  | Symbol name => if decide (name = arg) then Ok (number v) else Ok (expression (Symbol name))
  | Add a b => x ← evaluate arg a v; y ← evaluate arg b v; Ok (binary Add Float.add x y)
  | Sub a b => x ← evaluate arg a v; y ← evaluate arg b v; Ok (binary Sub Float.sub x y)
  | Mul a b => x ← evaluate arg a v; y ← evaluate arg b v; Ok (binary Mul Float.mul x y)
  | Div a b => x ← evaluate arg a v; y ← evaluate arg b v; Ok (binary Div Float.np_div x y)
  | exp a =>
      x ← evaluate arg a v;
      match x with
      | number x => Ok (number (np_exp x))
      | expression _ => Raise (no_loop "exp")
      end
  | Pow a b =>
      x ← evaluate arg a v; y ← evaluate arg b v;
      match x, y with
      | number _, number _ => Raise (NotImplementedError "Pow")
      | _, _ => Ok (expression (Pow (to_expr x) (to_expr y)))
      end
  | Function name _ => Raise (NotImplementedError name)
  end.

Definition to_scalar (x : value) : scalar :=
  match x with number x => SFloat x | expression e => SObject e end.

Definition lambdify (arg e : Expr) : result (float → result scalar) :=
  match arg with
  | Symbol name => Ok (λ v, to_scalar <$> evaluate name e v)
  | _ => Raise (ValueError "lambdify: the argument is not a symbol")
  end.

(** A SymPy that cannot invert: [inverse_laplace_transform] raises.  The
    function made of the un-inverted [I(s)] has the free symbol [s]. *)
Definition sympy_no_inverse : LaplaceSolver.sympy :=
  LaplaceSolver.mkSympy
    (λ e, Ok e)
    (λ _ _ _, Raise (NotImplementedError "inverse_laplace_transform"))
    lambdify.

(** A SymPy whose inversion returns a closed form with a pole at the
    origin, [1/t].  The grid starts at [t = 0], where NumPy evaluates it to
    [inf]. *)
Definition sympy_pole : LaplaceSolver.sympy :=
  LaplaceSolver.mkSympy
    (λ e, Ok e)
    (λ _ _ t, Ok (Div (Num (Fin 1)) t))
    lambdify.

(** A figure that only records which solution is drawn on it, and a view
    that never fails. *)
Definition view_ok : MainWindow.view (option LaplaceSolver.Solution) :=
  MainWindow.mkView (λ _, Ok "") (λ _, None) (λ _ solution _, (Some solution, Ok ()))
    (λ _, Ok ()).

Definition empty_window : MainWindow.MainWindow (option LaplaceSolver.Solution) :=
  MainWindow.mk None "" None.

(** A figure as the list of the titles of its axes, and a view whose
    plotter adds the first of the four axes and then raises. *)
Definition view_plot_fails : MainWindow.view (list string) :=
  MainWindow.mkView (λ _, Ok "") (λ _, [])
    (λ axes _ _, (axes ++ ["Señal de Entrada V(t)"], Raise (ValueError "plot")))
    (λ _, Ok ()).

End Stub.

(** A uniform grid of [n] points from [t_0] with spacing [dt]. *)
Definition uniform_grid (t_0 dt : R) (n : nat) : list R :=
  tabulate (λ k, (t_0 + INR k * dt)%R) n.

(** The area under a sampled signal: the sum of the samples times the
    spacing of the grid. *)
Definition discrete_area (dt : R) (signal : list R) : R :=
  (foldr Rplus 0 signal * dt)%R.

(** The transform-domain impedance [Z(s) = R + s·L + 1/(s·C)] and current
    [I(s) = V(s)/Z(s)] that [solve] builds for a model. *)
Definition Z_s (m : RLCModel.RLCModel) : Sympy.Expr :=
  Sympy.Add
    (Sympy.Add (Sympy.Num (RLCModel.R m))
       (Sympy.Mul LaplaceSolver.s (Sympy.Num (RLCModel.L m))))
    (Sympy.Div (Sympy.Num (Fin 1))
       (Sympy.Mul LaplaceSolver.s (Sympy.Num (RLCModel.C m)))).

(** The attempt of [solve] to invert [I_s]: the simplified inverse, or
    [I_s] itself when the inversion or its simplification raises. *)
Definition invert (sp : LaplaceSolver.sympy) (I_s : Sympy.Expr) : result Sympy.Expr :=
  try_except
    (i_t ← LaplaceSolver.inverse_laplace_transform sp I_s LaplaceSolver.s LaplaceSolver.t;
     LaplaceSolver.simplify sp i_t)
    (λ _, Ok I_s).

(** The running trapezoid sum that [_calculate_voltage_C] accumulates, on
    real numbers: the value at sample [k] for the current samples [cur]. *)
Fixpoint trapezoid_spec (c dt : R) (cur : nat → R) (k : nat) : R :=
  match k with
  | O => 0%R
  | S k' => (trapezoid_spec c dt cur k' + (cur (S k') + cur k') / 2 * dt / c)%R
  end.

(** The array [v_c] of the trapezoid loop once the passes [1..j] are done. *)
Definition trapezoid_state (c dt : R) (cur : nat → R) (n j : nat) : Numpy.ndarray :=
  tabulate (λ k, Fin (if decide (k ≤ j)%nat then trapezoid_spec c dt cur k else 0%R)) n.

(** ** ui/parameter_form.py: reading the form *)

Module ParameterForm.

(** [seq[i]] for a Python [int]: a negative index counts from the end. *)
Definition getitem_int {A} (l : list A) (i : Z) : result A :=
  if decide (0 ≤ i)%Z then getitem l (Z.to_nat i)
  else if decide (- Z.of_nat (length l) ≤ i)%Z
       then getitem l (Z.to_nat (Z.of_nat (length l) + i))
       else Raise IndexError.

(** The widgets that [get_parameters] reads: the text of each line edit and
    the current index of the combo box. *)
Record ParameterForm : Type := mk {
  r_input : string;
  l_input : string;
  c_input : string;
  signal_combo : Z;
  amplitude_input : string;
  param_a_input : string;
  param_t0_input : string
}.

Section GetParameters.
(** Python's [float(text)], which raises [ValueError] on a text that is not
    a number. *)
Variable py_float : string → result float.

Definition get_parameters (self : ParameterForm) : result MainWindow.parameters :=
  let signal_index := signal_combo self in
  R ← py_float (r_input self);
  L ← py_float (l_input self);
  C ← py_float (c_input self);
  signal_type ← getitem_int signal_types signal_index;
  amplitude ← py_float (amplitude_input self);
  let signal_params : SignalGenerator.params := {[ "amplitude" := amplitude ]} in
  signal_params ←
    (if decide (signal_index = 1)%Z then
       a ← py_float (param_a_input self); Ok (<["a" := a]> signal_params)
     else if decide (signal_index = 3)%Z then
       t0 ← py_float (param_t0_input self); Ok (<["t0" := t0]> signal_params)
     else Ok signal_params);
  Ok (MainWindow.mkParameters R L C signal_type signal_params).

End GetParameters.

(** A [float] for the examples: it reads the texts ["100"], ["0.1"],
    ["0.00001"], ["10"] and ["0.001"] and raises on any other text. *)
Definition float_of_sample_text (text : string) : result float :=
  if decide (text = "100") then Ok (Fin 100)
  else if decide (text = "0.1") then Ok (Fin (1 / 10))
  else if decide (text = "0.00001") then Ok (Fin (1 / 100000))
  else if decide (text = "10") then Ok (Fin 10)
  else if decide (text = "0.001") then Ok (Fin (1 / 1000))
  else Raise (ValueError ("could not convert string to float: " +:+ text)).

(** The form as [_init_ui] fills it, with the kind at [index]. *)
Definition initial_form (index : Z) : ParameterForm :=
  mk "100" "0.1" "0.00001" index "10" "0.001" "0.001".

End ParameterForm.

(** * Properties *)

Import Numpy.

(** ** Arithmetic on finite values *)

Section FloatFacts.
Implicit Types x y : R.

Lemma add_fin x y : Fin x + Fin y = Fin (x + y).
Proof. reflexivity. Qed.

Lemma sub_fin x y : Fin x - Fin y = Fin (x - y).
Proof. reflexivity. Qed.

Lemma mul_fin x y : Fin x * Fin y = Fin (x * y).
Proof. reflexivity. Qed.

Lemma neg_fin x : - Fin x = Fin (- x).
Proof. reflexivity. Qed.

Lemma abs_fin x : Float.abs (Fin x) = Fin (Rabs x).
Proof. reflexivity. Qed.

Lemma np_div_fin x y : y ≠ 0%R → Fin x / Fin y = Fin (x / y).
Proof. intros Hy. unfold Float.np_div; simpl. by rewrite decide_False. Qed.

Lemma py_div_fin x y : y ≠ 0%R → Float.py_div (Fin x) (Fin y) = Ok (Fin (x / y)).
Proof. intros Hy. unfold Float.py_div. by rewrite decide_False, np_div_fin. Qed.

Lemma py_div_nonzero (a : float) y :
  y ≠ 0%R → Float.py_div a (Fin y) = Ok (a / Fin y).
Proof. intros Hy. unfold Float.py_div. by rewrite decide_False. Qed.

Lemma py_div_zero (a : float) : Float.py_div a (Fin 0) = Raise ZeroDivisionError.
Proof. unfold Float.py_div. by rewrite decide_True. Qed.

Lemma np_sqrt_fin x : (0 <= x)%R → Float.np_sqrt (Fin x) = Fin (sqrt x).
Proof. intros Hx. simpl. rewrite decide_False; [done | lra]. Qed.

Lemma ltb_fin x y : (Fin x <? Fin y) = bool_decide (x < y)%R.
Proof. reflexivity. Qed.

Lemma leb_fin x y : (Fin x <=? Fin y) = bool_decide (x <= y)%R.
Proof.
  unfold Float.leb; simpl.
  repeat case_bool_decide; simpl; try reflexivity; lra.
Qed.

Lemma geb_fin x y : (Fin x >=? Fin y) = bool_decide (y <= x)%R.
Proof. apply leb_fin. Qed.

Lemma eqb_fin x y : (Fin x =? Fin y) = bool_decide (x = y).
Proof. reflexivity. Qed.

End FloatFacts.

#[global] Arguments Float.add : simpl never.
#[global] Arguments Float.sub : simpl never.
#[global] Arguments Float.mul : simpl never.
#[global] Arguments Float.neg : simpl never.
#[global] Arguments Float.abs : simpl never.
#[global] Arguments Float.np_div : simpl never.
#[global] Arguments Float.py_div : simpl never.
#[global] Arguments Float.np_sqrt : simpl never.
#[global] Arguments Float.ltb : simpl never.
#[global] Arguments Float.leb : simpl never.
#[global] Arguments Float.geb : simpl never.
#[global] Arguments Float.eqb : simpl never.

Create Rewrite HintDb float.
#[global] Hint Rewrite add_fin sub_fin mul_fin neg_fin abs_fin
  ltb_fin leb_fin geb_fin eqb_fin : float.

(** ** Unknown signal kinds *)

(** C5.  A signal kind outside the five recognised values makes both entry
    points raise: [_get_signal_laplace], which builds the transform, and
    [generate_signal], which samples the waveform, end in the [ValueError]
    for an unrecognised kind and return nothing. *)
Theorem unknown_signal_kind_raises (signal_type : string)
    (p : SignalGenerator.params) (time_array : ndarray) :
  signal_type ∉ signal_types →
  LaplaceSolver._get_signal_laplace signal_type p
    = Raise (SignalGenerator.unknown_signal signal_type)
  ∧ SignalGenerator.generate_signal signal_type p time_array
    = Raise (SignalGenerator.unknown_signal signal_type).
Proof.
  intros Hkind.
  unfold LaplaceSolver._get_signal_laplace, SignalGenerator.generate_signal.
  repeat case_decide; subst; try done;
    exfalso; apply Hkind; unfold signal_types; set_solver.
Qed.

Lemma unknown_signal_kind_raises_square :
  LaplaceSolver._get_signal_laplace "square" ∅
    = Raise (SignalGenerator.unknown_signal "square")
  ∧ SignalGenerator.generate_signal "square" ∅ [Fin 0; Fin 1]
    = Raise (SignalGenerator.unknown_signal "square").
Proof.
  apply (unknown_signal_kind_raises "square" ∅ [Fin 0; Fin 1]).
  apply (bool_decide_unpack _). vm_compute. exact I.
Defined.

(** ** The transform of each signal *)

Lemma dict_get_Some {V} (d : gmap string V) key (v default : V) :
  d !! key = Some v → dict_get d key default = v.
Proof. intros H. unfold dict_get. by rewrite H. Qed.

Lemma Rpower_two x : (0 < x)%R → Rpower x 2 = (x * x)%R.
Proof.
  intros Hx. replace 2%R with (INR 2) by (simpl; lra).
  rewrite Rpower_pow by done. simpl. lra.
Qed.

(** C2.  For an amplitude [A] (and a width [a] or a delay [t0] where the
    kind has one), [_get_signal_laplace] returns the expression of the
    analytic one-sided transform: [A/s] for step, [(A/s)·(1 − e^{−a·s})] for
    pulse, [A/s²] for ramp, [(A/s)·e^{−t0·s}] for delayed step and the
    constant [A] for impulse; at every point [0 < s] the returned expression
    has that value. *)
Theorem signal_laplace_is_analytic_transform (A a t0 : R) (p : SignalGenerator.params) :
  p !! "amplitude" = Some (Fin A) →
  let s := LaplaceSolver.s in
  let value e (f : R → R) := ∀ sv : R, (0 < sv)%R → denote sv e = Some (f sv) in
  (∃ e, LaplaceSolver._get_signal_laplace "step" p = Ok e
        ∧ e = Sympy.Div (Sympy.Num A) s
        ∧ value e (λ sv, A / sv)%R)
  ∧ (p !! "a" = Some (Fin a) →
     ∃ e, LaplaceSolver._get_signal_laplace "pulse" p = Ok e
          ∧ e = Sympy.Mul (Sympy.Div (Sympy.Num A) s)
                  (Sympy.Sub (Sympy.Num 1%R) (Sympy.exp (Sympy.Mul (Sympy.Num (- a)%R) s)))
          ∧ value e (λ sv, A / sv * (1 - Rtrigo_def.exp (- a * sv)))%R)
  ∧ (∃ e, LaplaceSolver._get_signal_laplace "ramp" p = Ok e
          ∧ e = Sympy.Div (Sympy.Num A) (Sympy.Pow s (Sympy.Num 2%R))
          ∧ value e (λ sv, A / (sv * sv))%R)
  ∧ (p !! "t0" = Some (Fin t0) →
     ∃ e, LaplaceSolver._get_signal_laplace "delayed" p = Ok e
          ∧ e = Sympy.Mul (Sympy.Div (Sympy.Num A) s)
                  (Sympy.exp (Sympy.Mul (Sympy.Num (- t0)%R) s))
          ∧ value e (λ sv, A / sv * Rtrigo_def.exp (- t0 * sv))%R)
  ∧ (∃ e, LaplaceSolver._get_signal_laplace "impulse" p = Ok e
          ∧ e = Sympy.Num A
          ∧ value e (λ _, A)).
Proof.
  intros HA s value.
  unfold LaplaceSolver._get_signal_laplace.
  rewrite (dict_get_Some _ _ _ _ HA).
  repeat split.
  - eexists; repeat split. intros sv Hsv; simpl.
    rewrite decide_False by lra. done.
  - intros Ha. rewrite (dict_get_Some _ _ _ _ Ha).
    eexists; repeat split. intros sv Hsv; simpl.
    rewrite decide_False by lra. done.
  - eexists; repeat split. intros sv Hsv; simpl.
    rewrite decide_True by done. rewrite Rpower_two by done. simpl.
    rewrite decide_False by nra. done.
  - intros Ht0. rewrite (dict_get_Some _ _ _ _ Ht0).
    eexists; repeat split. intros sv Hsv; simpl.
    rewrite decide_False by lra. done.
  - eexists; repeat split.
Qed.

Lemma signal_laplace_is_analytic_transform_example :
  let p : SignalGenerator.params :=
    {[ "amplitude" := Fin 5; "a" := Fin (1 / 1000); "t0" := Fin (1 / 500) ]} in
  (∃ e, LaplaceSolver._get_signal_laplace "pulse" p = Ok e
        ∧ ∀ sv : R, (0 < sv)%R →
            denote sv e = Some (5 / sv * (1 - Rtrigo_def.exp (- (1 / 1000) * sv)))%R)
  ∧ (∃ e, LaplaceSolver._get_signal_laplace "delayed" p = Ok e
          ∧ ∀ sv : R, (0 < sv)%R →
              denote sv e = Some (5 / sv * Rtrigo_def.exp (- (1 / 500) * sv))%R).
Proof.
  intros p.
  destruct (signal_laplace_is_analytic_transform 5 (1 / 1000) (1 / 500) p)
    as (_ & Hpulse & _ & Hdelayed & _); [reflexivity |].
  destruct Hpulse as (e & He & _ & Hv); [reflexivity |].
  destruct Hdelayed as (e' & He' & _ & Hv'); [reflexivity |].
  split; [exists e | exists e']; split; assumption.
Defined.

(** ** Sampled signals *)

Lemma zeros_lookup n k : (k < n)%nat → zeros n !! k = Some (Fin 0).
Proof. intros Hk. unfold zeros. by apply lookup_replicate_2. Qed.

Lemma zeros_length n : length (zeros n) = n.
Proof. apply length_replicate. Qed.

Lemma mask_set_length arr mask v :
  length (mask_set arr mask v) = (length arr `min` length mask)%nat.
Proof. unfold mask_set. by rewrite length_zip_with. Qed.

Lemma zeros_like_length (t : ndarray) : length (zeros_like t) = length t.
Proof. apply zeros_length. Qed.

Lemma mask_set_lookup arr mask v k x (m : bool) :
  arr !! k = Some x → mask !! k = Some m →
  mask_set arr mask v !! k = Some (if m then v else x).
Proof.
  intros Hx Hm. unfold mask_set.
  rewrite lookup_zip_with, Hx; simpl. by rewrite Hm.
Qed.

(** C8.  Sampling the pulse kind with amplitude [A] and width [a] on any
    grid gives, sample by sample, [A] where [0 <= t < a] and 0 elsewhere; so
    for [a = 0.001] and [A = 5] a grid that contains [t = 0] and
    [t = 0.002] has the sample 5 at the first and 0 at the second. *)
Theorem pulse_signal_samples (A a : R) (p : SignalGenerator.params) (t : list R) :
  p !! "amplitude" = Some (Fin A) →
  p !! "a" = Some (Fin a) →
  ∃ signal : ndarray,
    SignalGenerator.generate_signal "pulse" p (Fin <$> t) = Ok signal
    ∧ length signal = length t
    ∧ (∀ k tk, t !! k = Some tk →
         signal !! k = Some (Fin (if decide (0 <= tk < a)%R then A else 0)))
    ∧ (A = 5%R → a = (1 / 1000)%R →
       ∀ k0 k2, t !! k0 = Some 0%R → t !! k2 = Some (2 / 1000)%R →
         signal !! k0 = Some (Fin 5) ∧ signal !! k2 = Some (Fin 0)).
Proof.
  intros HA Ha.
  assert (Hgen : ∀ k tk, t !! k = Some tk →
            SignalGenerator._pulse_signal p (Fin <$> t) !! k
            = Some (Fin (if decide (0 <= tk < a)%R then A else 0))).
  { intros k tk Hk. unfold SignalGenerator._pulse_signal.
    rewrite (dict_get_Some _ _ _ _ HA), (dict_get_Some _ _ _ _ Ha).
    assert (Hlt : (k < length t)%nat) by (by eapply lookup_lt_Some).
    erewrite mask_set_lookup; cycle 1.
    - eapply mask_set_lookup.
      + apply zeros_lookup. by rewrite length_fmap.
      + by rewrite !list_lookup_fmap, Hk.
    - by rewrite !list_lookup_fmap, Hk.
    - rewrite !geb_fin. f_equal.
      repeat case_bool_decide; case_decide; try reflexivity; lra. }
  exists (SignalGenerator._pulse_signal p (Fin <$> t)). split; [reflexivity |].
  split; [| split].
  - unfold SignalGenerator._pulse_signal.
    rewrite !mask_set_length, zeros_like_length, !length_fmap. lia.
  - exact Hgen.
  - intros -> -> k0 k2 H0 H2.
    rewrite (Hgen _ _ H0), (Hgen _ _ H2).
    rewrite decide_True by lra. rewrite decide_False by lra. done.
Qed.

Lemma pulse_signal_samples_example :
  let p : SignalGenerator.params := {[ "amplitude" := Fin 5; "a" := Fin (1 / 1000) ]} in
  let t : list R := [0; 1 / 1000; 2 / 1000]%R in
  ∃ signal : ndarray,
    SignalGenerator.generate_signal "pulse" p (Fin <$> t) = Ok signal
    ∧ signal !! 0%nat = Some (Fin 5) ∧ signal !! 2%nat = Some (Fin 0).
Proof.
  intros p t.
  destruct (pulse_signal_samples 5 (1 / 1000) p t) as (signal & Hs & _ & _ & Hex);
    [reflexivity | reflexivity |].
  exists signal. split; [exact Hs |].
  apply Hex; reflexivity.
Defined.

(** ** The circuit model *)

Lemma init_fields (R L C : float) m :
  RLCModel.__init__ R L C = Ok m →
  RLCModel.R m = R ∧ RLCModel.L m = L ∧ RLCModel.C m = C.
Proof.
  unfold RLCModel.__init__, RLCModel._calculate_characteristic_params.
  destruct (Float.py_div R (Fin 2)) as [h|]; simpl; [| done].
  destruct (Float.py_div C L) as [q|]; simpl; [| done].
  repeat case_match; intros [= <-]; done.
Qed.

(** C6.  For strictly positive [R], [L], [C] the constructor returns a
    model with [ω0 = 1/√(LC)], hence [ω0·√(LC) = 1], and [ζ = (R/2)·√(C/L)];
    its damping type is the underdamped one exactly when [ζ < 1], the
    critically damped one exactly when [ζ = 1] and the overdamped one
    exactly when [ζ > 1]; [ωd = ω0·√(1 − ζ²)] when underdamped and 0
    otherwise. *)
Theorem characteristic_params (r l c : R) :
  (0 < r)%R → (0 < l)%R → (0 < c)%R →
  let ω0 := (1 / sqrt (l * c))%R in
  let ζ := (r / 2 * sqrt (c / l))%R in
  ∃ m, RLCModel.__init__ (Fin r) (Fin l) (Fin c) = Ok m
    ∧ RLCModel.omega_0 m = Fin ω0
    ∧ (ω0 * sqrt (l * c) = 1)%R
    ∧ RLCModel.zeta m = Fin ζ
    ∧ (RLCModel.damping_type m = "subamortiguado" ↔ (ζ < 1)%R)
    ∧ (RLCModel.damping_type m = "críticamente amortiguado" ↔ ζ = 1%R)
    ∧ (RLCModel.damping_type m = "sobreamortiguado" ↔ (ζ > 1)%R)
    ∧ RLCModel.omega_d m
      = (if decide (ζ < 1)%R then Fin (ω0 * sqrt (1 - ζ * ζ)) else Fin 0).
Proof.
  intros Hr Hl Hc ω0 ζ.
  assert (Hlc : (0 < sqrt (l * c))%R) by (apply sqrt_lt_R0; nra).
  assert (Hcl : (0 <= sqrt (c / l))%R) by apply sqrt_pos.
  assert (Hq : (0 < c / l)%R) by (apply Rdiv_lt_0_compat; lra).
  assert (Hζ : (0 <= ζ)%R) by (unfold ζ; nra).
  unfold RLCModel.__init__, RLCModel._calculate_characteristic_params.
  rewrite !py_div_fin by lra. simpl.
  autorewrite with float. rewrite !np_sqrt_fin by nra.
  autorewrite with float. rewrite np_div_fin by lra.
  fold ω0 ζ.
  destruct (decide (ζ < 1)%R) as [Hlt | Hnlt].
  - rewrite bool_decide_eq_true_2 by done.
    eexists; split; [reflexivity |]; simpl.
    rewrite np_sqrt_fin by nra. autorewrite with float.
    repeat split; try done; try lra.
    unfold ω0. field. lra.
  - rewrite bool_decide_eq_false_2 by done.
    destruct (decide (ζ = 1%R)) as [Heq | Hne].
    + rewrite bool_decide_eq_true_2 by done.
      eexists; split; [reflexivity |]; simpl.
      repeat split; try done; try lra.
      unfold ω0. field. lra.
    + rewrite bool_decide_eq_false_2 by done.
      eexists; split; [reflexivity |]; simpl.
      repeat split; try done; try lra.
      unfold ω0. field. lra.
Qed.

Lemma characteristic_params_unit_circuit :
  ∃ m, RLCModel.__init__ (Fin 1) (Fin 1) (Fin 1) = Ok m
    ∧ RLCModel.omega_0 m = Fin (1 / sqrt (1 * 1))
    ∧ RLCModel.zeta m = Fin (1 / 2 * sqrt (1 / 1)).
Proof.
  destruct (characteristic_params 1 1 1) as (m & Hm & Hω & _ & Hζ & _); try lra.
  exists m. repeat split; assumption.
Defined.

Lemma init_positive (r l c : R) :
  (0 < r)%R → (0 < l)%R → (0 < c)%R →
  ∃ m, RLCModel.__init__ (Fin r) (Fin l) (Fin c) = Ok m.
Proof.
  intros Hr Hl Hc.
  unfold RLCModel.__init__, RLCModel._calculate_characteristic_params.
  rewrite !py_div_fin by lra. simpl.
  repeat case_match; eauto.
Qed.

Lemma impedance_value_zero_divisor (r x : R) :
  Complex.add (Complex.of_float (Fin r))
    (Complex.mul Complex.j (Complex.of_float (Fin x - Fin 1 / Fin 0)))
  = Complex.mk NaN NInf.
Proof.
  unfold Complex.add, Complex.mul, Complex.of_float, Complex.j; simpl.
  unfold Float.np_div, Float.inv, Float.sub, Float.add, Float.mul, Float.neg,
    Float.signed_inf.
  repeat (case_decide; try lra; simpl). done.
Qed.

(** C10 as the specification words it fails: at frequency zero given as a
    NumPy [float64], [get_impedance] returns a value.  NumPy's division
    gives [inf] for the capacitive reactance and the call returns
    [nan − inf·j]. *)
Lemma impedance_at_numpy_zero_frequency :
  ∃ m, RLCModel.__init__ (Fin 1) (Fin 1) (Fin 1) = Ok m
    ∧ RLCModel.get_impedance m (RLCModel.numpy_float64 (Fin 0))
      = Ok (Complex.mk NaN NInf).
Proof.
  destruct (init_positive 1 1 1) as [m Hm]; try lra.
  destruct (init_fields _ _ _ _ Hm) as (HR & HL & HC).
  exists m. split; [done |].
  unfold RLCModel.get_impedance, Float.pi. rewrite HR, HL, HC. simpl.
  autorewrite with float.
  replace (2 * PI * 0 * 1)%R with 0%R by lra.
  by rewrite impedance_value_zero_divisor.
Qed.

(** C10, as the code has it.  For a model built from positive [R], [L],
    [C] and a frequency [f], let [divisor] be the product [2π·f·C] as
    [get_impedance] computes it.  With a Python float [f] the call raises
    exactly when that product is zero, and the exception is
    [ZeroDivisionError]; otherwise it returns [R + 1j·(2π·f·L − 1/divisor)],
    which is [R + x·j] when the reactance [x] is finite.  With a NumPy
    [float64] it always returns that value.  At [f = 0] the product is
    zero: the Python float raises, the NumPy float gives [nan − inf·j]. *)
Theorem impedance_raises_on_zero_divisor (r l c : R) :
  (0 < r)%R → (0 < l)%R → (0 < c)%R →
  ∃ m, RLCModel.__init__ (Fin r) (Fin l) (Fin c) = Ok m
    ∧ (∀ f : float,
         let omega := Fin 2 * Float.pi * f in
         let divisor := omega * Fin c in
         let reactance := omega * Fin l - Fin 1 / divisor in
         let Z := Complex.add (Complex.of_float (Fin r))
                    (Complex.mul Complex.j (Complex.of_float reactance)) in
         (∀ e, RLCModel.get_impedance m (RLCModel.python_float f) = Raise e
               ↔ divisor = Fin 0 ∧ e = ZeroDivisionError)
         ∧ (divisor ≠ Fin 0 → RLCModel.get_impedance m (RLCModel.python_float f) = Ok Z)
         ∧ RLCModel.get_impedance m (RLCModel.numpy_float64 f) = Ok Z
         ∧ (∀ x : R, reactance = Fin x → Z = Complex.mk (Fin r) (Fin x)))
    ∧ RLCModel.get_impedance m (RLCModel.python_float (Fin 0)) = Raise ZeroDivisionError
    ∧ RLCModel.get_impedance m (RLCModel.numpy_float64 (Fin 0))
      = Ok (Complex.mk NaN NInf).
Proof.
  intros Hr Hl Hc.
  destruct (init_positive r l c) as [m Hm]; try done.
  destruct (init_fields _ _ _ _ Hm) as (HR & HL & HC).
  exists m. split; [done |].
  split; [| split].
  - intros f omega divisor reactance Z.
    unfold RLCModel.get_impedance. rewrite HR, HL, HC.
    cbn [RLCModel.frequency_value mbind result_bind].
    fold omega divisor reactance Z.
    split; [| split; [| split]].
    + intros e. split.
      * intros Hraise. destruct divisor as [y | | |]; try done.
        unfold Float.py_div in Hraise. case_decide as Hy; [| done].
        subst y. by injection Hraise as <-.
      * intros [-> ->]. by rewrite py_div_zero.
    + intros Hd. destruct divisor as [y | | |]; unfold Float.py_div; try done.
      rewrite decide_False; [done |]. by intros ->.
    + done.
    + intros x Hx. subst Z. rewrite Hx.
      unfold Complex.add, Complex.mul, Complex.of_float, Complex.j; simpl.
      autorewrite with float. f_equal; f_equal; lra.
  - unfold RLCModel.get_impedance, Float.pi. rewrite HR, HL, HC.
    cbn [RLCModel.frequency_value]. autorewrite with float.
    replace (2 * PI * 0 * c)%R with 0%R by lra.
    by rewrite py_div_zero.
  - unfold RLCModel.get_impedance, Float.pi. rewrite HR, HL, HC.
    cbn [RLCModel.frequency_value mbind result_bind]. autorewrite with float.
    replace (2 * PI * 0 * c)%R with 0%R by lra.
    by rewrite impedance_value_zero_divisor.
Qed.

Lemma impedance_raises_on_zero_divisor_unit_circuit :
  ∃ m, RLCModel.__init__ (Fin 1) (Fin 1) (Fin 1) = Ok m
    ∧ RLCModel.get_impedance m (RLCModel.python_float (Fin 1))
      = Ok (Complex.mk (Fin 1) (Fin (2 * PI * 1 * 1 - 1 / (2 * PI * 1 * 1))))
    ∧ RLCModel.get_impedance m (RLCModel.python_float (Fin 0)) = Raise ZeroDivisionError.
Proof.
  destruct (impedance_raises_on_zero_divisor 1 1 1) as (m & Hm & Hf & H0 & _);
    try lra.
  exists m. split; [exact Hm |]. split; [| exact H0].
  destruct (Hf (Fin 1)) as (_ & Hvalue & _ & Hfinite).
  pose proof PI_RGT_0 as Hpi.
  unfold Float.pi in *. autorewrite with float in *.
  rewrite Hvalue by (intros [= H]; nra).
  f_equal. apply Hfinite.
  rewrite np_div_fin by nra. by autorewrite with float.
Defined.

(** ** Validation of the circuit parameters *)

(** The constructor validates nothing: with [R = 0], with [L = −1] and with
    [C = 0] it returns a model object. *)
Lemma init_accepts_nonpositive :
  (∃ m, RLCModel.__init__ (Fin 0) (Fin 1) (Fin 1) = Ok m)
  ∧ (∃ m, RLCModel.__init__ (Fin 1) (Fin (- 1)) (Fin 1) = Ok m)
  ∧ (∃ m, RLCModel.__init__ (Fin 1) (Fin 1) (Fin 0) = Ok m).
Proof.
  unfold RLCModel.__init__, RLCModel._calculate_characteristic_params.
  rewrite !py_div_fin by lra. simpl.
  repeat split; repeat case_match; eauto.
Qed.

(** C3, as the code has it.  [simulate] rejects a parameter record in which
    [R <= 0], [L <= 0] or [C <= 0] before any model is constructed: it shows
    the warning and returns with the window unchanged, so no circuit model
    is stored and nothing is solved. *)
Theorem simulate_rejects_nonpositive {Fig : Type} (sp : LaplaceSolver.sympy)
    (ui : MainWindow.view Fig) (self : MainWindow.MainWindow Fig)
    (p : MainWindow.parameters) :
  (MainWindow.R p <=? Fin 0) = true
  ∨ (MainWindow.L p <=? Fin 0) = true
  ∨ (MainWindow.C p <=? Fin 0) = true →
  MainWindow.simulate sp ui self (Ok p)
  = (self, MainWindow.warning "Error" "Los valores de R, L y C deben ser positivos").
Proof.
  intros H. unfold MainWindow.simulate.
  destruct H as [-> | [-> | ->]]; simpl; rewrite ?orb_true_r; reflexivity.
Qed.

(** ** The Euler simulation *)

Section Tabulate.
Context {A : Type}.
Implicit Types (f g : nat → A) (n k : nat).

Lemma tabulate_length f n : length (tabulate f n) = n.
Proof. unfold tabulate. by rewrite length_fmap, length_seq. Qed.

Lemma tabulate_lookup f n k : (k < n)%nat → tabulate f n !! k = Some (f k).
Proof.
  intros Hk. unfold tabulate.
  by rewrite list_lookup_fmap, lookup_seq_lt.
Qed.

Lemma tabulate_ext f g n :
  (∀ k, (k < n)%nat → f k = g k) → tabulate f n = tabulate g n.
Proof.
  intros Hfg. apply list_eq; intros k.
  destruct (decide (k < n)%nat) as [Hk | Hk].
  - rewrite !tabulate_lookup by done. f_equal. by apply Hfg.
  - rewrite !lookup_ge_None_2; [done | rewrite tabulate_length; lia ..].
Qed.

Lemma tabulate_insert f n k (y : A) :
  <[k := y]> (tabulate f n) = tabulate (λ i, if decide (i = k) then y else f i) n.
Proof.
  apply list_eq; intros i.
  destruct (decide (i < n)%nat) as [Hi | Hi].
  - rewrite tabulate_lookup by done.
    destruct (decide (i = k)) as [-> | Hne].
    + rewrite list_lookup_insert_eq; [done | by rewrite tabulate_length].
    + rewrite list_lookup_insert_ne by done. by rewrite tabulate_lookup.
  - rewrite !lookup_ge_None_2;
      [done | rewrite ?length_insert, tabulate_length; lia ..].
Qed.

End Tabulate.

Lemma tabulate_fmap {A B} (h : A → B) (f : nat → A) n :
  h <$> tabulate f n = tabulate (h ∘ f) n.
Proof. unfold tabulate. by rewrite <- list_fmap_compose. Qed.

Lemma tabulate_zeros n : tabulate (λ _, Fin 0) n = zeros n.
Proof.
  apply list_eq; intros k. destruct (decide (k < n)%nat).
  - by rewrite tabulate_lookup, zeros_lookup.
  - rewrite !lookup_ge_None_2; [done | rewrite ?zeros_length, ?tabulate_length; lia ..].
Qed.

Lemma getitem_Some {A} (l : list A) k x : l !! k = Some x → getitem l k = Ok x.
Proof. intros H. unfold getitem. by rewrite H. Qed.

Lemma getitem_tabulate {A} (f : nat → A) n k :
  (k < n)%nat → getitem (tabulate f n) k = Ok (f k).
Proof. intros H. by apply getitem_Some, tabulate_lookup. Qed.

Lemma setitem_lt {A} (l : list A) k x :
  (k < length l)%nat → setitem l k x = Ok (<[k := x]> l).
Proof. intros H. unfold setitem. by rewrite decide_True. Qed.

Section Euler.
Variables (r l c dt : R) (vin : list R) (n : nat).
Hypothesis Hl : l ≠ 0%R.
Hypothesis Hc : c ≠ 0%R.
Hypothesis Hvin : length vin = n.

Let V_in (k : nat) : R := default 0%R (vin !! k).
Let spec := euler_spec r l c dt V_in.
Let state := euler_state r l c dt V_in n.
Let body := LaplaceSolver.euler_body (Fin <$> vin) (Fin r) (Fin l) (Fin c) (Fin dt).

Lemma euler_state_0 : state 0%nat = (zeros n, zeros n).
Proof.
  unfold state, euler_state. rewrite <- !tabulate_zeros.
  f_equal; apply tabulate_ext; intros k _; case_decide; try done;
    by replace k with 0%nat by lia.
Qed.

Lemma euler_state_last :
  (state (n - 1)%nat).1 = Fin <$> tabulate (λ k, (spec k).1) n.
Proof.
  unfold state, euler_state. rewrite tabulate_fmap. simpl.
  apply tabulate_ext; intros k Hk. simpl. rewrite decide_True by lia. done.
Qed.

Lemma euler_body_step j : (S j < n)%nat → body (S j) (state j) = Ok (state (S j)).
Proof.
  intros Hj. unfold body, LaplaceSolver.euler_body, state, euler_state.
  replace (S j - 1)%nat with j by lia.
  assert (Hin : (Fin <$> vin) !! j = Some (Fin (V_in j))).
  { rewrite list_lookup_fmap. unfold V_in.
    destruct (lookup_lt_is_Some_2 vin j) as [x ->]; [lia | done]. }
  rewrite (getitem_Some _ _ _ Hin). simpl.
  repeat (rewrite getitem_tabulate by lia). simpl.
  rewrite !decide_True by lia.
  rewrite !setitem_lt by (rewrite tabulate_length; lia). simpl.
  rewrite (getitem_Some _ j (Fin (spec j).1)); cycle 1.
  { rewrite list_lookup_insert_ne by lia.
    rewrite tabulate_lookup by lia. by rewrite decide_True by lia. }
  simpl.
  repeat (rewrite getitem_tabulate by lia). simpl.
  rewrite ?decide_True by lia.
  rewrite !setitem_lt by (rewrite tabulate_length; lia). simpl.
  rewrite !tabulate_insert.
  autorewrite with float. rewrite !np_div_fin by done. autorewrite with float.
  do 2 f_equal; apply tabulate_ext; intros k Hk;
    (destruct (decide (k = S j)) as [-> | Hne];
     [ rewrite decide_True by lia; f_equal;
       simpl; fold spec; destruct (spec j) as [i v]; simpl; by field
     | repeat case_decide; try done; lia ]).
Qed.

Lemma euler_loop m a :
  (a + m < n)%nat →
  LaplaceSolver.for_loop (seq (S a) m) body (state a) = Ok (state (a + m)%nat).
Proof.
  revert a. induction m as [| m IH]; intros a Ham;
    cbn [seq LaplaceSolver.for_loop].
  - by replace (a + 0)%nat with a by lia.
  - rewrite euler_body_step by lia. cbn [mbind result_bind].
    rewrite IH by lia. by replace (S a + m)%nat with (a + S m)%nat by lia.
Qed.

Lemma euler_spec_step k :
  spec (S k) = (((spec k).1 + dt * (V_in k - r * (spec k).1 - (spec k).2) / l)%R,
                ((spec k).2 + dt * (spec k).1 / c)%R).
Proof. unfold spec; simpl. by destruct (euler_spec r l c dt V_in k). Qed.

End Euler.

(** C4.  On a grid of [N] points whose first two samples are [dt] apart,
    with [N] input samples [V_in], the Euler simulation returns the sequence
    [i] for which, together with a capacitor-voltage sequence [v_C],
    [i[0] = 0], [v_C[0] = 0] and for every [k] from 1 to [N − 1]
    [i[k] = i[k−1] + dt·(V_in[k−1] − R·i[k−1] − v_C[k−1])/L] and
    [v_C[k] = v_C[k−1] + dt·i[k−1]/C]. *)
Theorem euler_simulation_recurrence (r l c : R) (t vin : list R) (t0 t1 : R) :
  l ≠ 0%R → c ≠ 0%R →
  t !! 0%nat = Some t0 → t !! 1%nat = Some t1 →
  length vin = length t →
  let N := length t in
  let dt := (t1 - t0)%R in
  ∃ i v_C : list R,
    LaplaceSolver._numerical_simulation (Fin <$> t) (Fin <$> vin) (Fin r) (Fin l) (Fin c)
      = Ok (Fin <$> i)
    ∧ length i = N ∧ length v_C = N
    ∧ i !! 0%nat = Some 0%R ∧ v_C !! 0%nat = Some 0%R
    ∧ ∀ k, (1 ≤ k < N)%nat →
        ∃ i_prev v_prev V_prev,
          i !! (k - 1)%nat = Some i_prev
          ∧ v_C !! (k - 1)%nat = Some v_prev
          ∧ vin !! (k - 1)%nat = Some V_prev
          ∧ i !! k = Some (i_prev + dt * (V_prev - r * i_prev - v_prev) / l)%R
          ∧ v_C !! k = Some (v_prev + dt * i_prev / c)%R.
Proof.
  intros Hl Hc Ht0 Ht1 Hlen N dt.
  assert (HN : (2 ≤ N)%nat) by (apply lookup_lt_Some in Ht1; unfold N; lia).
  set (V_in := λ k : nat, default 0%R (vin !! k)).
  set (spec := euler_spec r l c dt V_in).
  exists (tabulate (λ k, (spec k).1) N), (tabulate (λ k, (spec k).2) N).
  split; [| rewrite !tabulate_length, !tabulate_lookup by lia; repeat split].
  - unfold LaplaceSolver._numerical_simulation.
    rewrite (getitem_Some (Fin <$> t) 1 (Fin t1)) by (by rewrite list_lookup_fmap, Ht1).
    rewrite (getitem_Some (Fin <$> t) 0 (Fin t0)) by (by rewrite list_lookup_fmap, Ht0).
    cbn [mbind result_bind]. rewrite length_fmap, sub_fin. fold N dt.
    rewrite <- (euler_state_0 r l c dt vin N Hlen).
    unfold LaplaceSolver.range1.
    rewrite (euler_loop r l c dt vin N Hl Hc Hlen (N - 1) 0) by lia.
    cbn [mbind result_bind]. f_equal.
    apply (euler_state_last r l c dt vin N Hlen).
  - intros k Hk. destruct k as [| j]; [lia |].
    replace (S j - 1)%nat with j by lia.
    destruct (lookup_lt_is_Some_2 vin j) as [V HV]; [lia |].
    exists (spec j).1, (spec j).2, V.
    rewrite !tabulate_lookup by lia.
    subst spec V_in. rewrite euler_spec_step, HV. done.
Qed.

Lemma euler_simulation_recurrence_two_points :
  ∃ i : list R,
    LaplaceSolver._numerical_simulation
      (Fin <$> [0; 1]%R) (Fin <$> [1; 1]%R) (Fin 1) (Fin 1) (Fin 1) = Ok (Fin <$> i)
    ∧ i !! 0%nat = Some 0%R
    ∧ i !! 1%nat = Some (0 + (1 - 0) * (1 - 1 * 0 - 0) / 1)%R.
Proof.
  destruct (euler_simulation_recurrence 1 1 1 [0; 1]%R [1; 1]%R 0 1)
    as (i & v & Hrun & _ & _ & Hi0 & Hv0 & Hstep);
    [lra | lra | reflexivity | reflexivity | reflexivity |].
  exists i. split; [exact Hrun |]. split; [exact Hi0 |].
  destruct (Hstep 1%nat) as (ip & vp & Vp & Hip & Hvp & HVp & Hi1 & _); [simpl; lia |].
  simpl in Hip, Hvp, HVp.
  rewrite Hi0 in Hip. rewrite Hv0 in Hvp.
  injection Hip as <-. injection Hvp as <-. injection HVp as <-.
  exact Hi1.
Defined.

(** ** The solver once the transform is built *)

#[global] Arguments Numpy.linspace : simpl never.

Lemma linspace_length start stop num : length (linspace start stop num) = num.
Proof.
  unfold linspace, arange.
  repeat case_match; rewrite ?length_insert, !length_fmap, length_seq; done.
Qed.

Lemma mask_put_length arr mask values : length (mask_put arr mask values) = length arr.
Proof.
  revert mask values. induction arr as [| x arr IH]; intros [| [] mask] values; simpl; try done.
  - destruct values; simpl; by rewrite IH.
  - by rewrite IH.
Qed.

Lemma mapM_result_length {A B} (f : A → result B) (l : list A) (k : list B) :
  mapM f l = Ok k → length k = length l.
Proof.
  revert k. induction l as [| a l IH]; intros k; simpl.
  - by intros [= <-].
  - destruct (f a) as [b |]; simpl; [| done].
    destruct (mapM f l) as [k' |]; simpl; [| done].
    intros [= <-]. simpl. by rewrite (IH k').
Qed.

Lemma for_loop_invariant {S} (P : S → Prop) (ks : list nat) body (st : S) :
  P st →
  (∀ k s, k ∈ ks → P s → ∃ s', body k s = Ok s' ∧ P s') →
  ∃ st', LaplaceSolver.for_loop ks body st = Ok st' ∧ P st'.
Proof.
  revert st. induction ks as [| k ks IH]; intros st Hst Hbody; simpl.
  - eauto.
  - destruct (Hbody k st) as (s' & -> & Hs'); [set_solver | done |]. simpl.
    apply IH; [done |]. intros k' s Hk'. apply Hbody. set_solver.
Qed.

Lemma getitem_lt {A} (l : list A) k : (k < length l)%nat → ∃ x, getitem l k = Ok x.
Proof.
  intros Hk. destruct (lookup_lt_is_Some_2 l k Hk) as [x Hx].
  exists x. by apply getitem_Some.
Qed.

Lemma generate_signal_total signal_type p (V_s : Sympy.Expr) (time_array : ndarray) :
  LaplaceSolver._get_signal_laplace signal_type p = Ok V_s →
  ∃ signal, SignalGenerator.generate_signal signal_type p time_array = Ok signal
            ∧ length signal = length time_array.
Proof.
  unfold LaplaceSolver._get_signal_laplace, SignalGenerator.generate_signal.
  repeat case_decide; try done; intros _.
  - eexists; split; [done |]. unfold SignalGenerator._step_signal, ones_like.
    by rewrite length_fmap, length_replicate.
  - eexists; split; [done |]. unfold SignalGenerator._pulse_signal.
    rewrite !mask_set_length, zeros_like_length, !length_fmap. lia.
  - eexists; split; [done |]. unfold SignalGenerator._ramp_signal.
    by rewrite mask_put_length, zeros_like_length.
  - eexists; split; [done |]. unfold SignalGenerator._delayed_signal.
    rewrite !mask_set_length, zeros_like_length, !length_fmap. lia.
  - unfold SignalGenerator._impulse_signal.
    assert (Hlen : ∀ w h : float,
      length (mask_set (zeros_like time_array)
                ((λ x, Float.abs x <? w / Fin 2) <$> time_array) h)
      = length time_array).
    { intros. rewrite !mask_set_length, zeros_like_length, !length_fmap. lia. }
    case_decide as Hn.
    + destruct (getitem_lt time_array 1) as [t1 ->]; [lia |].
      destruct (getitem_lt time_array 0) as [t0 ->]; [lia |]. simpl.
      eexists; split; [done |]. apply Hlen.
    + simpl. rewrite mul_fin, py_div_nonzero by lra. simpl.
      eexists; split; [done |]. apply Hlen.
Qed.

(** The Euler simulation is total on a grid of at least two points with as
    many input samples, whatever the values; it starts from zero current. *)
Lemma numerical_simulation_total (time_array input_signal : ndarray) (R L C : float) :
  (2 ≤ length time_array)%nat →
  length input_signal = length time_array →
  ∃ i, LaplaceSolver._numerical_simulation time_array input_signal R L C = Ok i
       ∧ length i = length time_array
       ∧ i !! 0%nat = Some (Fin 0).
Proof.
  intros Hn Hin. unfold LaplaceSolver._numerical_simulation.
  destruct (getitem_lt time_array 1) as [t1 ->]; [lia |].
  destruct (getitem_lt time_array 0) as [t0 ->]; [lia |]. simpl.
  set (n := length time_array) in *.
  destruct (for_loop_invariant
              (λ st : ndarray * ndarray,
                 length st.1 = n ∧ length st.2 = n ∧ st.1 !! 0%nat = Some (Fin 0))
              (LaplaceSolver.range1 n)
              (LaplaceSolver.euler_body input_signal R L C (t1 - t0))
              (zeros n, zeros n)) as ([i v] & -> & Hi & _ & H0).
  - simpl. rewrite !zeros_length, zeros_lookup by lia. done.
  - intros k [i v] Hk (Hi & Hv & H0). simpl in Hi, Hv, H0.
    apply elem_of_seq in Hk. unfold LaplaceSolver.euler_body.
    destruct (getitem_lt input_signal (k - 1)) as [x ->]; [lia |].
    destruct (getitem_lt i (k - 1)) as [y ->]; [lia |].
    destruct (getitem_lt v (k - 1)) as [z Hz]. { lia. } rewrite Hz. simpl.
    rewrite setitem_lt by lia. simpl.
    match goal with |- context [getitem (<[k := ?w]> i) (k - 1)] =>
      destruct (getitem_lt (<[k := w]> i) (k - 1)) as [y' ->];
        [rewrite length_insert; lia |]
    end.
    simpl. rewrite setitem_lt by lia. simpl.
    eexists; split; [done |]. simpl. rewrite !length_insert.
    rewrite list_lookup_insert_ne by lia. done.
  - simpl. eauto.
Qed.

Lemma diff_length (x : ndarray) : length (diff x) = (length x - 1)%nat.
Proof.
  induction x as [| a [| b x] IH]; try done.
  cbn [diff length] in *. rewrite IH. lia.
Qed.

Lemma gradient_interior_uniform_length (f : ndarray) h :
  length (gradient_interior_uniform f h) = (length f - 2)%nat.
Proof.
  induction f as [| a [| b [| c f]] IH]; try done.
  cbn [gradient_interior_uniform length] in *. rewrite IH. lia.
Qed.

Lemma gradient_interior_length (f dx : ndarray) :
  length dx = (length f - 1)%nat →
  length (gradient_interior f dx) = (length f - 2)%nat.
Proof.
  revert dx. induction f as [| a f IH]; intros dx Hdx; [by destruct dx |].
  destruct f as [| b [| c f]]; destruct dx as [| d1 [| d2 dx]]; try done.
  change (gradient_interior (a :: b :: c :: f) (d1 :: d2 :: dx))
    with (- d2 / (d1 * (d1 + d2)) * a + (d2 - d1) / (d1 * d2) * b
          + d1 / (d2 * (d1 + d2)) * c
          :: gradient_interior (b :: c :: f) (d2 :: dx)).
  cbn [length] in *. rewrite IH; cbn [length]; lia.
Qed.

Lemma gradient_total (f x : ndarray) :
  (2 ≤ length f)%nat → length x = length f →
  ∃ g, gradient f x = Ok g ∧ length g = length f.
Proof.
  intros Hn Hx. unfold gradient.
  rewrite decide_False by lia.
  destruct (getitem_lt (diff x) 0) as [dx0 ->]; [rewrite diff_length; lia |]. simpl.
  rewrite decide_False by lia.
  destruct (getitem_lt f 0) as [f0 ->]; [lia |].
  destruct (getitem_lt f 1) as [f1 ->]; [lia |].
  destruct (getitem_lt f (length f - 1)) as [fn1 ->]; [lia |].
  destruct (getitem_lt f (length f - 2)) as [fn2 ->]; [lia |]. simpl.
  eexists; split; [done |].
  cbn [length]. rewrite length_app. cbn [length].
  case_match.
  - rewrite gradient_interior_uniform_length. lia.
  - rewrite gradient_interior_length by (rewrite diff_length; lia). lia.
Qed.

Lemma calculate_voltage_L_total (time current : ndarray) (L : float) :
  (2 ≤ length time)%nat → length current = length time →
  ∃ v, LaplaceSolver._calculate_voltage_L time current L = Ok v
       ∧ length v = length time.
Proof.
  intros Hn Hc. unfold LaplaceSolver._calculate_voltage_L.
  destruct (gradient_total current time) as (g & -> & Hg); [lia | lia |]. simpl.
  eexists; split; [done |]. rewrite length_fmap. lia.
Qed.

Lemma calculate_voltage_C_total (time current : ndarray) (C : float) :
  (2 ≤ length time)%nat → length current = length time →
  ∃ v, LaplaceSolver._calculate_voltage_C time current C = Ok v
       ∧ length v = length time.
Proof.
  intros Hn Hc. unfold LaplaceSolver._calculate_voltage_C.
  destruct (getitem_lt time 1) as [t1 ->]; [lia |].
  destruct (getitem_lt time 0) as [t0 ->]; [lia |]. simpl.
  destruct (for_loop_invariant
              (λ v : ndarray, length v = length current)
              (LaplaceSolver.range1 (length current))
              (LaplaceSolver.trapezoid_body current C (t1 - t0))
              (zeros_like current)) as (v & -> & Hv).
  - apply zeros_like_length.
  - intros k v Hk Hv. apply elem_of_seq in Hk.
    unfold LaplaceSolver.trapezoid_body.
    destruct (getitem_lt v (k - 1)) as [x ->]; [lia |].
    destruct (getitem_lt current k) as [y ->]; [lia |].
    destruct (getitem_lt current (k - 1)) as [z ->]; [lia |]. simpl.
    rewrite setitem_lt by lia.
    eexists; split; [done |]. by rewrite length_insert.
  - exists v. split; [done | lia].
Qed.

Lemma mapM_as_float_re (vals : list scalar) (a : ndarray) :
  mapM as_float vals = Some a → mapM scalar_re vals = Some a.
Proof.
  revert a. induction vals as [| v vals IH]; intros a; simpl; [done |].
  destruct v as [x | re im | e]; simpl; try done.
  destruct (mapM as_float vals) as [a' |]; simpl; [| done].
  intros [= <-]. by rewrite (IH a').
Qed.

Lemma mapM_as_complex_re (vals : list scalar) (a : list (float * float)) :
  mapM as_complex vals = Some a → mapM scalar_re vals = Some (real a).
Proof.
  revert a. induction vals as [| v vals IH]; intros a; simpl; [by intros [= <-] |].
  destruct v as [x | re im | e]; simpl; try done;
    (destruct (mapM as_complex vals) as [a' |]; simpl; [| done];
     intros [= <-]; by rewrite (IH a')).
Qed.

Lemma mapM_as_complex_None (vals : list scalar) :
  mapM as_complex vals = None → mapM scalar_re vals = None.
Proof.
  induction vals as [| v vals IH]; simpl; [done |].
  destruct v as [x | re im | e]; simpl; try done;
    (destruct (mapM as_complex vals) as [a' |]; simpl; [done |];
     intros _; by rewrite IH).
Qed.

Lemma mapM_option_length {A B} (f : A → option B) (l : list A) (k : list B) :
  mapM f l = Some k → length k = length l.
Proof.
  intros H%mapM_Some. symmetry. by eapply Forall2_length.
Qed.

(** What [_generate_numerical_solution] returns for a recognised kind: the
    2000-point grid, the sampled input, and a current trace.  The trace is
    the Euler simulation when [lambdify] or one of the evaluations raised.
    Otherwise it holds the evaluated values: their real parts when they are
    all numbers, the values themselves, as an object array, when one of
    them is a SymPy expression. *)
Lemma generate_numerical_solution_spec (sp : LaplaceSolver.sympy) (i_t V_s : Sympy.Expr)
    signal_type p (R L C : float) :
  LaplaceSolver._get_signal_laplace signal_type p = Ok V_s →
  let time_array := linspace (Fin 0) (LaplaceSolver._get_duration signal_type p) 2000 in
  let euler input := LaplaceSolver._numerical_simulation time_array input R L C in
  ∃ (input : ndarray) (current : LaplaceSolver.trace),
    SignalGenerator.generate_signal signal_type p time_array = Ok input
    ∧ LaplaceSolver._generate_numerical_solution sp i_t signal_type p R L C
      = Ok (time_array, current, input)
    ∧ length input = 2000%nat
    ∧ (∀ c, current = LaplaceSolver.FloatTrace c → length c = 2000%nat)
    ∧ match LaplaceSolver.lambdify sp LaplaceSolver.t i_t with
      | Raise _ => ∃ c, euler input = Ok c ∧ current = LaplaceSolver.FloatTrace c
      | Ok i_func =>
          match mapM i_func time_array with
          | Raise _ => ∃ c, euler input = Ok c ∧ current = LaplaceSolver.FloatTrace c
          | Ok vals =>
              match mapM scalar_re vals with
              | Some c => current = LaplaceSolver.FloatTrace c
              | None => current = LaplaceSolver.ObjectTrace vals
              end
          end
      end.
Proof.
  intros HV time_array euler.
  assert (Htime : length time_array = 2000%nat) by apply linspace_length.
  destruct (generate_signal_total _ _ _ time_array HV) as (input & Hinput & Hlen).
  destruct (numerical_simulation_total time_array input R L C) as (i & Hi & Hilen & _);
    [lia | lia |].
  exists input.
  unfold LaplaceSolver._generate_numerical_solution. fold time_array.
  rewrite Hinput. cbn [mbind result_bind].
  destruct (LaplaceSolver.lambdify sp LaplaceSolver.t i_t) as [i_func | e];
    cbn [mbind result_bind try_except].
  - destruct (mapM i_func time_array) as [vals | e] eqn:Hvals;
      cbn [mbind result_bind try_except].
    + apply mapM_result_length in Hvals. unfold np_array.
      destruct (mapM as_float vals) as [a |] eqn:Hfloat.
      * rewrite (mapM_as_float_re _ _ Hfloat). apply mapM_option_length in Hfloat.
        eexists. split; [done |]. split; [reflexivity |]. split; [lia |].
        split; [intros c [= <-]; lia | done].
      * destruct (mapM as_complex vals) as [a |] eqn:Hcomplex.
        -- rewrite (mapM_as_complex_re _ _ Hcomplex).
           apply mapM_option_length in Hcomplex.
           eexists. split; [done |]. split; [reflexivity |]. split; [lia |].
           split; [| done].
           intros c [= <-]. unfold real. rewrite length_fmap. lia.
        -- rewrite (mapM_as_complex_None _ Hcomplex).
           eexists. split; [done |]. split; [reflexivity |]. split; [lia |].
           split; done.
    + rewrite Hi. cbn [fmap result_fmap].
      eexists. split; [done |]. split; [reflexivity |]. split; [lia |].
      split; [intros c [= <-]; lia | by exists i].
  - rewrite Hi. cbn [fmap result_fmap].
    eexists. split; [done |]. split; [reflexivity |]. split; [lia |].
    split; [intros c [= <-]; lia | by exists i].
Qed.

(** Once the transform is built and simplified, the inversion and the
    evaluation recover from their exceptions, and [solve] goes on with the
    trace that [_generate_numerical_solution] returns.  On a float trace the
    remaining steps are total on the 2000-point grid and [solve] returns;
    on an object trace [solve] raises [TypeError]. *)
Lemma solve_spec (sp : LaplaceSolver.sympy) (m : RLCModel.RLCModel) signal_type p
    (V_s I_s : Sympy.Expr) :
  let time_array := linspace (Fin 0) (LaplaceSolver._get_duration signal_type p) 2000 in
  LaplaceSolver._get_signal_laplace signal_type p = Ok V_s →
  LaplaceSolver.simplify sp (Sympy.Div V_s (Z_s m)) = Ok I_s →
  ∃ i_t trace input,
    invert sp I_s = Ok i_t
    ∧ LaplaceSolver._generate_numerical_solution sp i_t signal_type p
        (RLCModel.R m) (RLCModel.L m) (RLCModel.C m)
      = Ok (time_array, trace, input)
    ∧ match trace with
      | LaplaceSolver.FloatTrace current =>
          ∃ voltage_L voltage_C,
            LaplaceSolver._calculate_voltage_L time_array current (RLCModel.L m)
              = Ok voltage_L
            ∧ LaplaceSolver._calculate_voltage_C time_array current (RLCModel.C m)
              = Ok voltage_C
            ∧ LaplaceSolver.solve sp m signal_type p
              = Ok (LaplaceSolver.mkSolution i_t time_array current
                      ((λ x, x * RLCModel.R m) <$> current) voltage_L voltage_C input)
            ∧ length current = 2000%nat
            ∧ length voltage_L = 2000%nat ∧ length voltage_C = 2000%nat
      | LaplaceSolver.ObjectTrace _ =>
          LaplaceSolver.solve sp m signal_type p = Raise LaplaceSolver.not_a_float
      end.
Proof.
  intros time_array HV HI.
  assert (Htime : length time_array = 2000%nat) by apply linspace_length.
  assert (∃ i_t, invert sp I_s = Ok i_t) as [i_t Hi_t].
  { unfold invert. destruct (_ ≫= _); simpl; eauto. }
  destruct (generate_numerical_solution_spec sp i_t V_s signal_type p
              (RLCModel.R m) (RLCModel.L m) (RLCModel.C m) HV)
    as (input & trace & _ & Hnum & Hinput & Hcurrent & _).
  fold time_array in Hnum.
  exists i_t, trace, input. split; [done |]. split; [done |].
  assert (Hsolve : LaplaceSolver.solve sp m signal_type p
    = match trace with
      | LaplaceSolver.FloatTrace current =>
          voltage_L ← LaplaceSolver._calculate_voltage_L time_array current (RLCModel.L m);
          voltage_C ← LaplaceSolver._calculate_voltage_C time_array current (RLCModel.C m);
          Ok (LaplaceSolver.mkSolution i_t time_array current
                ((λ x, x * RLCModel.R m) <$> current) voltage_L voltage_C input)
      | LaplaceSolver.ObjectTrace _ => Raise LaplaceSolver.not_a_float
      end).
  { unfold LaplaceSolver.solve. rewrite HV. cbn [mbind result_bind].
    fold (Z_s m). rewrite HI. cbn [mbind result_bind].
    unfold LaplaceSolver._numerical_inverse_laplace. fold (invert sp I_s).
    rewrite Hi_t. cbn [mbind result_bind].
    rewrite Hnum. cbn [mbind result_bind]. done. }
  destruct trace as [current | objects]; [| done].
  specialize (Hcurrent current eq_refl).
  destruct (calculate_voltage_L_total time_array current (RLCModel.L m))
    as (vL & HvL & HvLlen); [lia | lia |].
  destruct (calculate_voltage_C_total time_array current (RLCModel.C m))
    as (vC & HvC & HvClen); [lia | lia |].
  exists vL, vC. rewrite Hsolve, HvL, HvC. cbn [mbind result_bind].
  repeat split; [done | lia | lia].
Qed.

Lemma simulate_rejects_nonpositive_zero_resistance :
  MainWindow.simulate Stub.sympy_pole Stub.view_ok Stub.empty_window
    (Ok (MainWindow.mkParameters (Fin 0) (Fin 1) (Fin 1) "step" ∅))
  = (Stub.empty_window,
     MainWindow.warning "Error" "Los valores de R, L y C deben ser positivos").
Proof.
  apply simulate_rejects_nonpositive. left. simpl.
  rewrite leb_fin. apply bool_decide_eq_true_2. lra.
Defined.

(** ** Recovery inside [solve] *)

(** C1, as the code has it.  Once the transform is built, the current trace
    is the Euler simulation on the sampled input exactly when [lambdify]
    raises or one of the pointwise evaluations raises; otherwise it holds
    the pointwise evaluation of the closed form: the real parts of the
    values when these are numbers, the values themselves when one of them
    is a SymPy expression.  Values that are not finite raise nothing and
    are kept.  [solve] returns with every trace of numbers as its current. *)
Theorem solve_current_trace (sp : LaplaceSolver.sympy) (m : RLCModel.RLCModel)
    signal_type p (V_s I_s : Sympy.Expr) :
  LaplaceSolver._get_signal_laplace signal_type p = Ok V_s →
  LaplaceSolver.simplify sp (Sympy.Div V_s (Z_s m)) = Ok I_s →
  let time_array := linspace (Fin 0) (LaplaceSolver._get_duration signal_type p) 2000 in
  ∃ i_t input trace,
    invert sp I_s = Ok i_t
    ∧ SignalGenerator.generate_signal signal_type p time_array = Ok input
    ∧ LaplaceSolver._generate_numerical_solution sp i_t signal_type p
        (RLCModel.R m) (RLCModel.L m) (RLCModel.C m)
      = Ok (time_array, trace, input)
    ∧ (let euler :=
         LaplaceSolver._numerical_simulation time_array input
           (RLCModel.R m) (RLCModel.L m) (RLCModel.C m) in
       match LaplaceSolver.lambdify sp LaplaceSolver.t i_t with
       | Raise _ => ∃ c, euler = Ok c ∧ trace = LaplaceSolver.FloatTrace c
       | Ok i_func =>
           match mapM i_func time_array with
           | Raise _ => ∃ c, euler = Ok c ∧ trace = LaplaceSolver.FloatTrace c
           | Ok vals =>
               match mapM scalar_re vals with
               | Some c => trace = LaplaceSolver.FloatTrace c
               | None => trace = LaplaceSolver.ObjectTrace vals
               end
           end
       end)
    ∧ ∀ c, trace = LaplaceSolver.FloatTrace c →
        ∃ sol,
          LaplaceSolver.solve sp m signal_type p = Ok sol
          ∧ LaplaceSolver.symbolic sol = i_t
          ∧ LaplaceSolver.time sol = time_array
          ∧ LaplaceSolver.input_signal sol = input
          ∧ LaplaceSolver.current sol = c.
Proof.
  intros HV HI time_array.
  destruct (solve_spec sp m signal_type p V_s I_s HV HI)
    as (i_t & trace & input & Hi_t & Hnum & Hsolve).
  destruct (generate_numerical_solution_spec sp i_t V_s signal_type p
              (RLCModel.R m) (RLCModel.L m) (RLCModel.C m) HV)
    as (input' & trace' & Hinput & Hnum' & _ & _ & Htrace).
  fold time_array in Hnum, Hnum', Hinput, Htrace, Hsolve.
  rewrite Hnum in Hnum'. injection Hnum' as <- <-.
  exists i_t, input, trace.
  split; [done |]. split; [done |]. split; [done |]. split; [exact Htrace |].
  intros c ->. destruct Hsolve as (vL & vC & _ & _ & Hsolve & _).
  eexists. split; [exact Hsolve |]. done.
Qed.

Lemma mapM_Ok_fmap {A B} (f : A → B) (l : list A) :
  mapM (λ x, Ok (f x)) l = Ok (f <$> l).
Proof. induction l as [| x l IH]; [done |]. simpl. by rewrite IH. Qed.

Lemma mapM_scalar_re_floats (a : ndarray) : mapM scalar_re (SFloat <$> a) = Some a.
Proof.
  apply mapM_Some, Forall2_fmap_l. by apply Forall_Forall2_diag, Forall_true.
Qed.

Lemma mapM_first_raises {A B} (f : A → result B) (x : A) (l : list A) (e : exn) :
  f x = Raise e → mapM f (x :: l) = Raise e.
Proof. intros H. simpl. by rewrite H. Qed.

Lemma lambdify_pole_values (time_array : ndarray) :
  mapM (λ v, Stub.to_scalar
               <$> Stub.evaluate "t" (Sympy.Div (Sympy.Num (Fin 1)) (Sympy.Symbol "t")) v)
       time_array
  = Ok (SFloat <$> ((λ v, Fin 1 / v) <$> time_array)).
Proof.
  rewrite <- list_fmap_compose.
  exact (mapM_Ok_fmap (λ v, SFloat (Fin 1 / v)) time_array).
Qed.

Lemma solve_current_trace_pole :
  ∃ m sol,
    RLCModel.__init__ (Fin 1) (Fin 1) (Fin 1) = Ok m
    ∧ LaplaceSolver.solve Stub.sympy_pole m "step" ∅ = Ok sol
    ∧ LaplaceSolver.symbolic sol = Sympy.Div (Sympy.Num (Fin 1)) LaplaceSolver.t
    ∧ LaplaceSolver.current sol = (λ v, Fin 1 / v) <$> LaplaceSolver.time sol.
Proof.
  destruct (init_positive 1 1 1) as [m Hm]; try lra.
  destruct (solve_current_trace Stub.sympy_pole m "step" ∅
              (Sympy.Div (Sympy.Num (Fin 1)) LaplaceSolver.s)
              (Sympy.Div (Sympy.Div (Sympy.Num (Fin 1)) LaplaceSolver.s) (Z_s m)))
    as (i_t & input & trace & Hi_t & _ & _ & Htrace & Hsolve);
    [reflexivity | reflexivity |].
  injection Hi_t as <-. simpl in Htrace.
  rewrite lambdify_pole_values, mapM_scalar_re_floats in Htrace.
  destruct (Hsolve _ Htrace) as (sol & Hsol & Hsym & Htime & _ & Hcur).
  exists m, sol. split; [exact Hm |]. split; [exact Hsol |]. split; [exact Hsym |].
  by rewrite Hcur, Htime.
Defined.

Lemma linspace_first (a d : R) (num : nat) :
  (2 ≤ num)%nat → linspace (Fin a) (Fin d) num !! 0%nat = Some (Fin a).
Proof.
  intros Hnum. unfold linspace, arange.
  assert (Hdiv : INR (num - 1) ≠ 0%R) by (apply not_0_INR; lia).
  rewrite decide_True by lia.
  rewrite list_lookup_insert_ne by lia.
  autorewrite with float. rewrite np_div_fin by done.
  case_match; rewrite !list_lookup_fmap, lookup_seq_lt by lia; simpl;
    rewrite ?np_div_fin by done; autorewrite with float; do 2 f_equal; lra.
Qed.

(** C1 as the specification words it fails: a closed form with a pole at [t = 0]
    evaluates to [inf] at the first sample of the grid; nothing raises, and
    [solve] returns that trace, which is not the Euler simulation. *)
Lemma nonfinite_evaluation_is_not_replaced :
  ∃ m sol i_func vals,
    RLCModel.__init__ (Fin 1) (Fin 1) (Fin 1) = Ok m
    ∧ LaplaceSolver.solve Stub.sympy_pole m "step" ∅ = Ok sol
    ∧ LaplaceSolver.lambdify Stub.sympy_pole LaplaceSolver.t (LaplaceSolver.symbolic sol)
      = Ok i_func
    ∧ mapM i_func (LaplaceSolver.time sol) = Ok vals
    ∧ vals !! 0%nat = Some (SFloat PInf)
    ∧ LaplaceSolver.current sol !! 0%nat = Some PInf
    ∧ LaplaceSolver._numerical_simulation
        (LaplaceSolver.time sol) (LaplaceSolver.input_signal sol)
        (RLCModel.R m) (RLCModel.L m) (RLCModel.C m)
      ≠ Ok (LaplaceSolver.current sol).
Proof.
  destruct (init_positive 1 1 1) as [m Hm]; try lra.
  set (V_s := Sympy.Div (Sympy.Num (Fin 1)) LaplaceSolver.s).
  assert (HV : LaplaceSolver._get_signal_laplace "step" ∅ = Ok V_s) by reflexivity.
  destruct (solve_spec Stub.sympy_pole m "step" ∅ V_s _ HV eq_refl)
    as (i_t & trace & input & Hi_t & Hnum & Hsolve).
  injection Hi_t as <-.
  destruct (generate_numerical_solution_spec Stub.sympy_pole
              (Sympy.Div (Sympy.Num (Fin 1)) LaplaceSolver.t) V_s "step" ∅
              (RLCModel.R m) (RLCModel.L m) (RLCModel.C m) HV)
    as (input' & trace' & _ & Hnum' & Hinput & _ & Htrace).
  rewrite Hnum in Hnum'. injection Hnum' as <- <-.
  simpl in Htrace.
  rewrite lambdify_pole_values, mapM_scalar_re_floats in Htrace. subst trace.
  destruct Hsolve as (vL & vC & _ & _ & Hsolve & _).
  change (LaplaceSolver._get_duration "step" ∅) with (Fin (2 / 100)) in *.
  set (time_array := linspace (Fin 0) (Fin (2 / 100)) 2000) in *.
  assert (Htime : length time_array = 2000%nat) by apply linspace_length.
  assert (Hfirst : time_array !! 0%nat = Some (Fin 0)) by (apply linspace_first; lia).
  assert (Hinf : Fin 1 / Fin 0 = PInf).
  { unfold Float.np_div, Float.inv, Float.mul, Float.signed_inf.
    rewrite !decide_True; [done | lra | done]. }
  assert (Hcur : ((λ v, Fin 1 / v) <$> time_array) !! 0%nat = Some PInf).
  { by rewrite list_lookup_fmap, Hfirst; simpl; rewrite Hinf. }
  eexists m, _, _, _. split; [exact Hm |]. split; [exact Hsolve |]. simpl.
  split; [reflexivity |]. split; [apply lambdify_pole_values |].
  split; [by rewrite list_lookup_fmap, Hcur |].
  split; [exact Hcur |].
  intros Heuler.
  destruct (numerical_simulation_total time_array input
              (RLCModel.R m) (RLCModel.L m) (RLCModel.C m)) as (i & Hi & _ & H0);
    [lia | lia |].
  rewrite Heuler in Hi. injection Hi as <-.
  rewrite Hcur in H0. done.
Qed.

(** C9, as the code has it.  When the analytic inversion of [I(s)] raises,
    [solve] goes on with the un-inverted [I(s)] as its symbolic result and
    evaluates it on the grid.  If [lambdify] or an evaluation raises, the
    Euler simulation takes over and [solve] returns the full bundle: the
    grid, the sampled input, the Euler current and the three voltages
    computed from it, 2000 samples each.  If the evaluations return
    numbers, [solve] returns the bundle with their real parts as the
    current.  If they return SymPy expressions, as they do for an [I(s)]
    made of [s] and the four operations, nothing is caught and [solve]
    raises [TypeError]. *)
Theorem solve_after_inversion_failure (sp : LaplaceSolver.sympy)
    (m : RLCModel.RLCModel) signal_type p (V_s I_s : Sympy.Expr) (e : exn) :
  LaplaceSolver._get_signal_laplace signal_type p = Ok V_s →
  LaplaceSolver.simplify sp (Sympy.Div V_s (Z_s m)) = Ok I_s →
  LaplaceSolver.inverse_laplace_transform sp I_s LaplaceSolver.s LaplaceSolver.t = Raise e →
  let time_array := linspace (Fin 0) (LaplaceSolver._get_duration signal_type p) 2000 in
  ∃ input,
    SignalGenerator.generate_signal signal_type p time_array = Ok input
    ∧ let recovered (current : ndarray) :=
        ∃ voltage_L voltage_C,
          LaplaceSolver._calculate_voltage_L time_array current (RLCModel.L m)
            = Ok voltage_L
          ∧ LaplaceSolver._calculate_voltage_C time_array current (RLCModel.C m)
            = Ok voltage_C
          ∧ LaplaceSolver.solve sp m signal_type p
            = Ok (LaplaceSolver.mkSolution I_s time_array current
                    ((λ x, x * RLCModel.R m) <$> current) voltage_L voltage_C input)
          ∧ length time_array = 2000%nat ∧ length input = 2000%nat
          ∧ length current = 2000%nat
          ∧ length voltage_L = 2000%nat ∧ length voltage_C = 2000%nat in
      let euler :=
        LaplaceSolver._numerical_simulation time_array input
          (RLCModel.R m) (RLCModel.L m) (RLCModel.C m) in
      match LaplaceSolver.lambdify sp LaplaceSolver.t I_s with
      | Raise _ => ∃ c, euler = Ok c ∧ recovered c
      | Ok i_func =>
          match mapM i_func time_array with
          | Raise _ => ∃ c, euler = Ok c ∧ recovered c
          | Ok vals =>
              match mapM scalar_re vals with
              | Some c => recovered c
              | None =>
                  LaplaceSolver.solve sp m signal_type p
                  = Raise LaplaceSolver.not_a_float
              end
          end
      end.
Proof.
  intros HV HI Hinv time_array.
  destruct (solve_spec sp m signal_type p V_s I_s HV HI)
    as (i_t & trace & input & Hi_t & Hnum & Hsolve).
  unfold invert in Hi_t. rewrite Hinv in Hi_t. simpl in Hi_t. injection Hi_t as <-.
  destruct (generate_numerical_solution_spec sp I_s V_s signal_type p
              (RLCModel.R m) (RLCModel.L m) (RLCModel.C m) HV)
    as (input' & trace' & Hinput & Hnum' & Hlen & _ & Htrace).
  fold time_array in Hnum, Hnum', Hinput, Htrace, Hsolve.
  rewrite Hnum in Hnum'. injection Hnum' as <- <-.
  exists input. split; [exact Hinput |].
  intros recovered euler.
  assert (Hrec : ∀ c, trace = LaplaceSolver.FloatTrace c → recovered c).
  { intros c ->. destruct Hsolve as (vL & vC & HvL & HvC & Hsol & Hc & HL & HC).
    exists vL, vC. repeat (split; [assumption |]).
    split; [apply linspace_length |]. by repeat split. }
  destruct (LaplaceSolver.lambdify sp LaplaceSolver.t I_s) as [i_func | e'].
  - destruct (mapM i_func time_array) as [vals | e'].
    + destruct (mapM scalar_re vals) as [c |]; [by apply Hrec |].
      by subst trace.
    + destruct Htrace as (c & Hc & ->). exists c. split; [exact Hc | by apply Hrec].
  - destruct Htrace as (c & Hc & ->). exists c. split; [exact Hc | by apply Hrec].
Qed.

Lemma lambdify_step_values (m : RLCModel.RLCModel) (time_array : ndarray) :
  let I_s := Sympy.Div (Sympy.Div (Sympy.Num (Fin 1)) LaplaceSolver.s) (Z_s m) in
  mapM (λ v, Stub.to_scalar <$> Stub.evaluate "t" I_s v) time_array
  = Ok ((λ _, SObject I_s) <$> time_array).
Proof.
  intros I_s. exact (mapM_Ok_fmap (λ _, SObject I_s) time_array).
Qed.

Lemma solve_after_inversion_failure_step_and_pulse :
  ∃ m,
    RLCModel.__init__ (Fin 1) (Fin 1) (Fin 1) = Ok m
    ∧ LaplaceSolver.solve Stub.sympy_no_inverse m "step" ∅
      = Raise LaplaceSolver.not_a_float
    ∧ ∃ V_s sol,
        LaplaceSolver._get_signal_laplace "pulse" ∅ = Ok V_s
        ∧ LaplaceSolver.solve Stub.sympy_no_inverse m "pulse" ∅ = Ok sol
        ∧ LaplaceSolver.symbolic sol = Sympy.Div V_s (Z_s m)
        ∧ LaplaceSolver._numerical_simulation
            (LaplaceSolver.time sol) (LaplaceSolver.input_signal sol)
            (RLCModel.R m) (RLCModel.L m) (RLCModel.C m)
          = Ok (LaplaceSolver.current sol).
Proof.
  destruct (init_positive 1 1 1) as [m Hm]; try lra.
  exists m. split; [exact Hm |]. split.
  - destruct (solve_after_inversion_failure Stub.sympy_no_inverse m "step" ∅
                (Sympy.Div (Sympy.Num (Fin 1)) LaplaceSolver.s)
                (Sympy.Div (Sympy.Div (Sympy.Num (Fin 1)) LaplaceSolver.s) (Z_s m))
                (NotImplementedError "inverse_laplace_transform"))
      as (input & _ & Hout); [reflexivity | reflexivity | reflexivity |].
    cbn [LaplaceSolver.lambdify Stub.sympy_no_inverse Stub.lambdify LaplaceSolver.t] in Hout.
    rewrite lambdify_step_values in Hout.
    destruct (linspace (Fin 0) (LaplaceSolver._get_duration "step" ∅) 2000)
      as [| t0 time_array] eqn:Hgrid.
    { apply (f_equal length) in Hgrid. by rewrite linspace_length in Hgrid. }
    exact Hout.
  - destruct (LaplaceSolver._get_signal_laplace "pulse" ∅) as [V_s |] eqn:HV; [| done].
    exists V_s.
    destruct (solve_after_inversion_failure Stub.sympy_no_inverse m "pulse" ∅
                V_s (Sympy.Div V_s (Z_s m))
                (NotImplementedError "inverse_laplace_transform"))
      as (input & _ & Hout); [exact HV | reflexivity | reflexivity |].
    injection HV as <-.
    cbn [LaplaceSolver.lambdify Stub.sympy_no_inverse Stub.lambdify LaplaceSolver.t] in Hout.
    destruct (linspace (Fin 0) (LaplaceSolver._get_duration "pulse" ∅) 2000)
      as [| t0 time_array] eqn:Hgrid.
    { apply (f_equal length) in Hgrid. by rewrite linspace_length in Hgrid. }
    rewrite (mapM_first_raises _ t0 time_array (Stub.no_loop "exp")) in Hout
      by reflexivity.
    destruct Hout as (c & Hc & vL & vC & _ & _ & Hsol & _).
    eexists. split; [reflexivity |]. split; [exact Hsol |]. split; [reflexivity |].
    exact Hc.
Defined.

(** ** The sampled impulse *)

Lemma mask_set_zeros_like (f : float → bool) (l : ndarray) (h : float) :
  mask_set (zeros_like l) (f <$> l) h = (λ x, if f x then h else Fin 0) <$> l.
Proof.
  unfold mask_set, zeros_like, zeros.
  induction l as [| x l IH]; [done |]. simpl. f_equal. apply IH.
Qed.

(** On a grid of at least two finite points the impulse is sampled as the
    height [A/(2·dt)] where [|t| < dt] and as 0 elsewhere, [dt] being the
    distance of the first two points. *)
Lemma impulse_signal_samples (A a0 a1 : R) p (t : list R) :
  p !! "amplitude" = Some (Fin A) →
  t !! 0%nat = Some a0 → t !! 1%nat = Some a1 →
  let dt := (a1 - a0)%R in
  dt ≠ 0%R →
  SignalGenerator.generate_signal "impulse" p (Fin <$> t)
  = Ok (Fin <$> ((λ x, if decide (Rabs x < dt)%R then A / (2 * dt) else 0)%R <$> t)).
Proof.
  intros HA H0 H1 dt Hdt.
  assert (Hlen : (1 < length t)%nat) by (by apply lookup_lt_Some in H1).
  unfold SignalGenerator.generate_signal; simpl.
  unfold SignalGenerator._impulse_signal.
  rewrite (dict_get_Some _ _ _ _ HA), length_fmap, !decide_True by done.
  rewrite (getitem_Some (Fin <$> t) 1 (Fin a1)) by (by rewrite list_lookup_fmap, H1).
  rewrite (getitem_Some (Fin <$> t) 0 (Fin a0)) by (by rewrite list_lookup_fmap, H0).
  cbn [mbind result_bind]. autorewrite with float. fold dt.
  rewrite !np_div_fin by lra.
  rewrite ?length_fmap, ?decide_True by done. cbn [mbind result_bind].
  rewrite mask_set_zeros_like, <- !list_fmap_compose. f_equal.
  apply list_fmap_ext; intros _ x _; simpl. autorewrite with float.
  repeat case_bool_decide; case_decide; try (f_equal; field; lra); lra.
Qed.

Lemma tabulate_S {A} (f : nat → A) n : tabulate f (S n) = f 0%nat :: tabulate (f ∘ S) n.
Proof.
  unfold tabulate. simpl. f_equal.
  by rewrite <- fmap_S_seq, <- list_fmap_compose.
Qed.

Lemma sum_tabulate_zero n : foldr Rplus 0%R (tabulate (λ _, 0%R) n) = 0%R.
Proof.
  induction n as [| n IH]; [done |].
  rewrite tabulate_S. simpl. unfold compose. rewrite IH. lra.
Qed.

(** C7, what the code computes.  On a uniform grid of at least two points
    that starts at [t_0 >= 0] with spacing [dt > 0], the sampled impulse has
    the height [A/(2·dt)] at the first sample when [t_0 < dt] and 0 at every
    other sample: of the pulse of width [2·dt] centred at 0 only the half on
    the grid is sampled, and the sum of the samples times [dt] is [A/2],
    not [A]. *)
Theorem impulse_signal_discrete_area (A t_0 dt : R) (n : nat) p :
  p !! "amplitude" = Some (Fin A) →
  (0 <= t_0)%R → (0 < dt)%R → (2 ≤ n)%nat →
  ∃ signal : list R,
    SignalGenerator.generate_signal "impulse" p (Fin <$> uniform_grid t_0 dt n)
      = Ok (Fin <$> signal)
    ∧ signal !! 0%nat = Some (if decide (t_0 < dt)%R then A / (2 * dt) else 0)%R
    ∧ (∀ k, (1 ≤ k < n)%nat → signal !! k = Some 0%R)
    ∧ discrete_area dt signal = (if decide (t_0 < dt)%R then A / 2 else 0)%R.
Proof.
  intros HA Ht0 Hdt Hn.
  set (h := (A / (2 * dt))%R).
  set (g := λ k : nat, if decide (k = 0%nat ∧ (t_0 < dt)%R) then h else 0%R).
  exists (tabulate g n).
  assert (Hg : (λ x, if decide (Rabs x < dt)%R then h else 0%R) <$> uniform_grid t_0 dt n
               = tabulate g n).
  { unfold uniform_grid. rewrite tabulate_fmap. apply tabulate_ext; intros k Hk.
    unfold compose, g. pose proof (pos_INR k) as Hpos.
    rewrite Rabs_pos_eq by nra.
    destruct k as [| k].
    - simpl. destruct (decide (t_0 < dt)%R).
      + rewrite !decide_True; [done | done | lra].
      + rewrite !decide_False; [done | tauto | lra].
    - pose proof (pos_INR k). rewrite S_INR. rewrite decide_False by nra.
      rewrite decide_False; [done | intros [? _]; done]. }
  split; [| split; [| split]].
  - rewrite <- Hg.
    rewrite (impulse_signal_samples A t_0 (t_0 + dt) p (uniform_grid t_0 dt n)); try done.
    + simpl. replace (t_0 + dt - t_0)%R with dt by lra. done.
    + unfold uniform_grid. rewrite tabulate_lookup by lia. simpl. f_equal. lra.
    + unfold uniform_grid. rewrite tabulate_lookup by lia. simpl. f_equal. lra.
    + simpl. lra.
  - rewrite tabulate_lookup by lia. unfold g.
    f_equal. repeat case_decide; try done; tauto.
  - intros k Hk. rewrite tabulate_lookup by lia. unfold g.
    rewrite decide_False; [done | intros [? _]; lia].
  - destruct n as [| n]; [lia |]. rewrite tabulate_S. unfold discrete_area. simpl.
    rewrite (tabulate_ext (g ∘ S) (λ _, 0%R)), sum_tabulate_zero.
    + unfold g, h. repeat case_decide; try tauto; try lra. field. lra.
    + intros k _. unfold compose, g. rewrite decide_False; [done | intros [? _]; done].
Qed.

Lemma impulse_signal_discrete_area_example :
  let p : SignalGenerator.params := {[ "amplitude" := Fin 1 ]} in
  ∃ signal : list R,
    SignalGenerator.generate_signal "impulse" p (Fin <$> uniform_grid 0 (1 / 10) 3)
      = Ok (Fin <$> signal)
    ∧ signal !! 0%nat = Some (1 / (2 * (1 / 10)))%R
    ∧ signal !! 1%nat = Some 0%R
    ∧ signal !! 2%nat = Some 0%R
    ∧ discrete_area (1 / 10) signal = (1 / 2)%R.
Proof.
  intros p.
  destruct (impulse_signal_discrete_area 1 0 (1 / 10) 3 p)
    as (signal & Hs & H0 & Hk & Harea); [reflexivity | lra | lra | lia |].
  exists signal. rewrite decide_True in H0, Harea by lra.
  repeat split; try assumption; apply Hk; lia.
Defined.


(** * Further properties of the code *)

(** ** The circuit model: the constructor's error *)

(** X1.  The constructor raises exactly when the inductance is zero, and
    then with [ZeroDivisionError], from the Python division [C / L]; every
    other triple of floats, also non-positive or non-finite, gives a
    model. *)
Theorem init_raises_iff_zero_inductance (R L C : float) (e : exn) :
  RLCModel.__init__ R L C = Raise e ↔ L = Fin 0 ∧ e = ZeroDivisionError.
Proof.
  unfold RLCModel.__init__, RLCModel._calculate_characteristic_params.
  rewrite py_div_nonzero by lra. cbn [mbind result_bind].
  destruct L as [y | | |]; unfold Float.py_div.
  - destruct (decide (y = 0%R)) as [-> | Hy]; cbn [mbind result_bind].
    + split; [by intros [= <-] | by intros [_ ->]].
    + split; [repeat case_match; done |].
      intros [[= ->] _]. done.
  - cbn [mbind result_bind]. split; [repeat case_match; done | by intros [? _]].
  - cbn [mbind result_bind]. split; [repeat case_match; done | by intros [? _]].
  - cbn [mbind result_bind]. split; [repeat case_match; done | by intros [? _]].
Qed.

(** ** The sampled signals, kind by kind *)

Lemma mul_one (a : float) : a * Fin 1 = a.
Proof.
  destruct a as [x | | |]; try done.
  - rewrite mul_fin. f_equal. lra.
  - unfold Float.mul, Float.signed_inf. rewrite decide_True; [done | lra].
  - unfold Float.mul, Float.signed_inf.
    rewrite decide_False by lra. rewrite decide_True; [done | lra].
Qed.

Lemma step_signal_value (p : SignalGenerator.params) (t : ndarray) :
  SignalGenerator.generate_signal "step" p t
  = Ok (replicate (length t) (default (Fin 1) (p !! "amplitude"))).
Proof.
  unfold SignalGenerator.generate_signal; simpl.
  unfold SignalGenerator._step_signal, ones_like, dict_get.
  rewrite fmap_replicate, mul_one. by destruct (p !! "amplitude").
Qed.

(** X5.  The sampled step is the amplitude at every sample, whatever the
    sample times are, negative ones included: the unit step of the docstring
    is not applied.  The amplitude is 1 when the key is missing. *)
Theorem step_signal_constant (p : SignalGenerator.params) (t : ndarray) :
  SignalGenerator.generate_signal "step" p t
  = Ok (replicate (length t) (default (Fin 1) (p !! "amplitude"))).
Proof. apply step_signal_value. Qed.

Lemma mask_set_fmap (f : float → bool) (g : float → float) (l : ndarray) (h : float) :
  mask_set (g <$> l) (f <$> l) h = (λ x, if f x then h else g x) <$> l.
Proof.
  unfold mask_set. induction l as [| x l IH]; [done |]. simpl. f_equal. apply IH.
Qed.

Lemma mask_put_select (f : float → bool) (g : float → float) (l : ndarray) :
  mask_put (zeros_like l) (f <$> l) (g <$> mask_select l (f <$> l))
  = (λ x, if f x then g x else Fin 0) <$> l.
Proof.
  unfold zeros_like, zeros.
  induction l as [| x l IH]; [done |]. simpl.
  destruct (f x); simpl; f_equal; apply IH.
Qed.

(** X6.  The sampled ramp is [A·t] at the samples with [t >= 0] and 0 at the
    others: the values computed from the selected samples go back to the
    places they were selected from. *)
Theorem ramp_signal_samples (A : R) (p : SignalGenerator.params) (t : list R) :
  p !! "amplitude" = Some (Fin A) →
  SignalGenerator.generate_signal "ramp" p (Fin <$> t)
  = Ok (Fin <$> ((λ x, if decide (0 <= x)%R then A * x else 0)%R <$> t)).
Proof.
  intros HA. unfold SignalGenerator.generate_signal; simpl.
  unfold SignalGenerator._ramp_signal. rewrite (dict_get_Some _ _ _ _ HA).
  rewrite mask_put_select, <- !list_fmap_compose. f_equal.
  apply list_fmap_ext; intros _ x _; simpl. autorewrite with float.
  case_bool_decide; case_decide; try done; lra.
Qed.

Lemma ramp_signal_samples_example :
  SignalGenerator.generate_signal "ramp" {[ "amplitude" := Fin 3 ]}
    (Fin <$> [-1; 0; 2]%R)
  = Ok (Fin <$> ((λ x, if decide (0 <= x)%R then 3 * x else 0)%R <$> [-1; 0; 2]%R)).
Proof. apply ramp_signal_samples. reflexivity. Defined.

Lemma delayed_signal_value (A t0 : R) (p : SignalGenerator.params) (t : list R) :
  p !! "amplitude" = Some (Fin A) →
  default (Fin (1 / 1000)) (p !! "t0") = Fin t0 →
  SignalGenerator.generate_signal "delayed" p (Fin <$> t)
  = Ok (Fin <$> ((λ x, if decide (t0 <= x)%R then A else 0%R) <$> t)).
Proof.
  intros HA Ht0. unfold SignalGenerator.generate_signal; simpl.
  unfold SignalGenerator._delayed_signal. rewrite (dict_get_Some _ _ _ _ HA).
  replace (dict_get p "t0" (Fin (1 / 1000))) with (Fin t0)
    by (unfold dict_get; by destruct (p !! "t0")).
  rewrite mask_set_zeros_like, <- !list_fmap_compose. f_equal.
  apply list_fmap_ext; intros _ x _; simpl. autorewrite with float.
  case_bool_decide; case_decide; try done; lra.
Qed.

(** X7.  The sampled delayed step is [A] at the samples with [t >= t0] and 0
    before; the delay is 0.001 when the key [t0] is missing. *)
Theorem delayed_signal_samples (A t0 : R) (p : SignalGenerator.params) (t : list R) :
  p !! "amplitude" = Some (Fin A) →
  default (Fin (1 / 1000)) (p !! "t0") = Fin t0 →
  SignalGenerator.generate_signal "delayed" p (Fin <$> t)
  = Ok (Fin <$> ((λ x, if decide (t0 <= x)%R then A else 0%R) <$> t)).
Proof. apply delayed_signal_value. Qed.

Lemma delayed_signal_samples_default_delay :
  SignalGenerator.generate_signal "delayed" {[ "amplitude" := Fin 5 ]}
    (Fin <$> [0; 1 / 1000; 1]%R)
  = Ok (Fin <$> ((λ x, if decide (1 / 1000 <= x)%R then 5%R else 0%R)
                   <$> [0; 1 / 1000; 1]%R)).
Proof. apply delayed_signal_samples; reflexivity. Defined.

Lemma pulse_signal_value (A a : R) (p : SignalGenerator.params) (t : list R) :
  p !! "amplitude" = Some (Fin A) →
  p !! "a" = Some (Fin a) →
  SignalGenerator.generate_signal "pulse" p (Fin <$> t)
  = Ok (Fin <$> ((λ x, if decide (0 <= x < a)%R then A else 0%R) <$> t)).
Proof.
  intros HA Ha. unfold SignalGenerator.generate_signal; simpl.
  unfold SignalGenerator._pulse_signal.
  rewrite (dict_get_Some _ _ _ _ HA), (dict_get_Some _ _ _ _ Ha).
  rewrite mask_set_zeros_like, mask_set_fmap, <- !list_fmap_compose. f_equal.
  apply list_fmap_ext; intros _ x _; simpl. autorewrite with float.
  repeat case_bool_decide; case_decide; try done; lra.
Qed.

(** X8.  On a grid without negative times the sampled pulse of width [a] is,
    sample by sample, the sampled step minus the sampled step delayed by
    [a]: the decomposition [A·(U(t) − U(t−a))] of the docstring. *)
Theorem pulse_is_step_minus_delayed (A a : R) (p : SignalGenerator.params) (t : list R) :
  p !! "amplitude" = Some (Fin A) →
  p !! "a" = Some (Fin a) →
  Forall (λ x, 0 <= x)%R t →
  ∃ pulse step delayed : ndarray,
    SignalGenerator.generate_signal "pulse" p (Fin <$> t) = Ok pulse
    ∧ SignalGenerator.generate_signal "step" p (Fin <$> t) = Ok step
    ∧ SignalGenerator.generate_signal "delayed" (<["t0" := Fin a]> p) (Fin <$> t)
      = Ok delayed
    ∧ pulse = zip_with Float.sub step delayed.
Proof.
  intros HA Ha Hpos.
  eexists _, _, _. split; [by apply pulse_signal_value |].
  split; [apply step_signal_value |].
  split.
  { apply (delayed_signal_value A a).
    - rewrite lookup_insert_ne; done.
    - by rewrite lookup_insert_eq. }
  rewrite HA, length_fmap. simpl.
  induction Hpos as [| x t Hx Hpos IH]; [done |]. simpl.
  f_equal; [| apply IH].
  autorewrite with float. f_equal.
  repeat case_decide; lra.
Qed.

Lemma pulse_is_step_minus_delayed_example :
  let p : SignalGenerator.params := {[ "amplitude" := Fin 5; "a" := Fin (1 / 1000) ]} in
  let t := (Fin <$> [0; 1 / 1000; 2 / 1000]%R) in
  ∃ pulse step delayed : ndarray,
    SignalGenerator.generate_signal "pulse" p t = Ok pulse
    ∧ SignalGenerator.generate_signal "step" p t = Ok step
    ∧ SignalGenerator.generate_signal "delayed" (<["t0" := Fin (1 / 1000)]> p) t
      = Ok delayed
    ∧ pulse = zip_with Float.sub step delayed.
Proof.
  intros p t.
  apply (pulse_is_step_minus_delayed 5 (1 / 1000) p [0; 1 / 1000; 2 / 1000]%R);
    [reflexivity | reflexivity |].
  repeat constructor; lra.
Defined.

(** X9.  On a grid too short to have a spacing the impulse takes
    [dt = 0.0001]: the empty grid gives the empty signal, and a one-point
    grid gives the height [A/0.0002 = 5000·A] if its time lies within
    0.0001 of zero and 0 otherwise. *)
Theorem impulse_signal_short_grid (A : R) (p : SignalGenerator.params) :
  p !! "amplitude" = Some (Fin A) →
  SignalGenerator.generate_signal "impulse" p [] = Ok []
  ∧ ∀ x : R,
      SignalGenerator.generate_signal "impulse" p [Fin x]
      = Ok [Fin (if decide (Rabs x < 1 / 10000)%R then 5000 * A else 0)%R].
Proof.
  intros HA. unfold SignalGenerator.generate_signal; simpl.
  unfold SignalGenerator._impulse_signal. rewrite (dict_get_Some _ _ _ _ HA).
  split.
  - simpl. rewrite mul_fin, py_div_fin by lra. done.
  - intros x. simpl. rewrite mul_fin, py_div_fin by lra. simpl.
    rewrite np_div_fin by lra. autorewrite with float. do 3 f_equal.
    case_bool_decide; case_decide; try lra; try done. f_equal. field.
Qed.

Lemma impulse_signal_short_grid_example :
  SignalGenerator.generate_signal "impulse" {[ "amplitude" := Fin 2 ]} [Fin 0]
  = Ok [Fin (if decide (Rabs 0 < 1 / 10000)%R then 5000 * 2 else 0)%R].
Proof.
  destruct (impulse_signal_short_grid 2 {[ "amplitude" := Fin 2 ]}) as [_ H];
    [reflexivity |].
  apply H.
Defined.

Lemma transform_built_iff_recognised (signal_type : string) (p : SignalGenerator.params) :
  (∃ V_s, LaplaceSolver._get_signal_laplace signal_type p = Ok V_s)
  ↔ signal_type ∈ signal_types.
Proof.
  unfold LaplaceSolver._get_signal_laplace, signal_types.
  repeat case_decide; subst;
    (split; [first [by intros [? [=]] | intros _; repeat constructor] |]);
    first [by eauto | intros Hkind].
  repeat (apply elem_of_cons in Hkind as [-> | Hkind]; [done |]).
  by apply elem_of_nil in Hkind.
Qed.

(** X10.  The transform builder and the sampler accept the same kinds: each
    returns a result exactly for the five recognised kinds, whatever the
    parameters and the grid, and the sampled signal has as many samples as
    the grid. *)
Theorem entry_points_accept_same_kinds (signal_type : string)
    (p : SignalGenerator.params) (time_array : ndarray) :
  ((∃ V_s, LaplaceSolver._get_signal_laplace signal_type p = Ok V_s)
   ↔ signal_type ∈ signal_types)
  ∧ ((∃ signal, SignalGenerator.generate_signal signal_type p time_array = Ok signal)
     ↔ signal_type ∈ signal_types)
  ∧ ∀ signal, SignalGenerator.generate_signal signal_type p time_array = Ok signal →
      length signal = length time_array.
Proof.
  pose proof (transform_built_iff_recognised signal_type p) as Hin.
  split; [exact Hin |]. split.
  - split.
    + intros [signal Hs]. apply Hin.
      unfold LaplaceSolver._get_signal_laplace.
      unfold SignalGenerator.generate_signal in Hs.
      repeat case_decide; eauto. done.
    + intros [V_s HV]%Hin.
      destruct (generate_signal_total _ _ _ time_array HV) as (signal & -> & _). eauto.
  - intros signal Hs.
    assert (∃ V_s, LaplaceSolver._get_signal_laplace signal_type p = Ok V_s) as [V_s HV].
    { unfold LaplaceSolver._get_signal_laplace.
      unfold SignalGenerator.generate_signal in Hs.
      repeat case_decide; eauto. done. }
    destruct (generate_signal_total _ _ _ time_array HV) as (signal' & Hs' & Hlen).
    rewrite Hs in Hs'. by injection Hs' as <-.
Qed.

(** ** The solver: duration, grid and failures *)

Lemma py_max_fin (x y : R) : Float.py_max (Fin x) (Fin y) = Fin (Rmax x y).
Proof.
  unfold Float.py_max, Float.gtb. rewrite ltb_fin.
  unfold Rmax. case_bool_decide; destruct (Rle_dec x y); f_equal; lra.
Qed.

(** X11.  The duration of the simulation is [max(10·a, 0.01)] for a pulse of
    width [a], [max(10·t0, 0.01)] for a step delayed by [t0] and 0.02 for
    every other kind, an unrecognised one included; with the defaults 0.001
    for a missing width or delay.  It is never below 0.01. *)
Theorem duration_policy (signal_type : string) (p : SignalGenerator.params) (a t0 : R) :
  default (Fin (1 / 1000)) (p !! "a") = Fin a →
  default (Fin (1 / 1000)) (p !! "t0") = Fin t0 →
  ∃ d : R,
    LaplaceSolver._get_duration signal_type p = Fin d
    ∧ (1 / 100 <= d)%R
    ∧ d = (if decide (signal_type = "pulse") then Rmax (a * 10) (1 / 100)
           else if decide (signal_type = "delayed") then Rmax (t0 * 10) (1 / 100)
           else 2 / 100)%R.
Proof.
  intros Ha Ht0. unfold LaplaceSolver._get_duration, dict_get.
  replace (match p !! "a" with Some v => v | None => Fin (1 / 1000) end)
    with (Fin a) by (by destruct (p !! "a")).
  replace (match p !! "t0" with Some v => v | None => Fin (1 / 1000) end)
    with (Fin t0) by (by destruct (p !! "t0")).
  autorewrite with float. rewrite !py_max_fin.
  repeat case_decide; eexists; (split; [reflexivity |]); (split; [| reflexivity]);
    try lra; apply Rmax_r.
Qed.

Lemma duration_policy_example :
  ∃ d : R,
    LaplaceSolver._get_duration "pulse" {[ "amplitude" := Fin 5; "a" := Fin (1 / 100) ]}
    = Fin d
    ∧ (1 / 100 <= d)%R.
Proof.
  destruct (duration_policy "pulse" {[ "amplitude" := Fin 5; "a" := Fin (1 / 100) ]}
              (1 / 100) (1 / 1000)) as (d & Hd & Hle & _); [reflexivity | reflexivity |].
  exists d. split; assumption.
Defined.

Lemma linspace_uniform (a b : R) (num : nat) :
  (2 ≤ num)%nat →
  linspace (Fin a) (Fin b) num
  = Fin <$> uniform_grid a ((b - a) / INR (num - 1)) num.
Proof.
  intros Hnum.
  assert (Hdiv : INR (num - 1) ≠ 0%R) by (apply not_0_INR; lia).
  unfold uniform_grid. rewrite tabulate_fmap.
  apply list_eq; intros k.
  destruct (decide (k < num)%nat) as [Hk | Hk]; cycle 1.
  { rewrite !lookup_ge_None_2; [done | rewrite ?linspace_length, ?tabulate_length; lia ..]. }
  rewrite tabulate_lookup by done. unfold linspace, arange, compose.
  rewrite decide_True by lia.
  autorewrite with float. rewrite np_div_fin by done.
  destruct (decide (k = num - 1)%nat) as [-> | Hlast].
  - rewrite list_lookup_insert_eq
      by (case_match; rewrite !length_fmap, length_seq; lia).
    do 2 f_equal. field. done.
  - rewrite list_lookup_insert_ne by lia.
    case_match; rewrite !list_lookup_fmap, lookup_seq_lt by lia; simpl;
      rewrite ?np_div_fin by done; autorewrite with float; do 2 f_equal; field; done.
Qed.

Lemma INR_1999 : INR (2000 - 1) = 1999%R.
Proof. rewrite INR_IZR_INZ. reflexivity. Qed.

(** X12.  The time grid that [_generate_numerical_solution] returns for a
    recognised kind is the uniform grid of 2000 points [t[k] = k·d/1999]
    over the duration [d]: it starts at 0, ends at [d], and its spacing
    [d/1999] is positive. *)
Theorem solve_time_grid (sp : LaplaceSolver.sympy) (i_t : Sympy.Expr)
    (signal_type : string) (p : SignalGenerator.params) (d : R) (R L C : float) :
  signal_type ∈ signal_types →
  LaplaceSolver._get_duration signal_type p = Fin d →
  (0 < d)%R →
  ∃ (current : LaplaceSolver.trace) (input : ndarray),
    LaplaceSolver._generate_numerical_solution sp i_t signal_type p R L C
    = Ok (Fin <$> uniform_grid 0 (d / 1999) 2000, current, input)
    ∧ uniform_grid 0 (d / 1999) 2000 !! 0%nat = Some 0%R
    ∧ uniform_grid 0 (d / 1999) 2000 !! 1999%nat = Some d
    ∧ (0 < d / 1999)%R.
Proof.
  intros Hkind Hd Hpos.
  assert (∃ V_s, LaplaceSolver._get_signal_laplace signal_type p = Ok V_s) as [V_s HV].
  { by apply transform_built_iff_recognised. }
  destruct (generate_numerical_solution_spec sp i_t V_s signal_type p R L C HV)
    as (input & current & _ & Hnum & _).
  rewrite Hd, linspace_uniform, INR_1999, Rminus_0_r in Hnum by lia.
  exists current, input. split; [exact Hnum |].
  unfold uniform_grid. rewrite !tabulate_lookup by lia.
  repeat split.
  - f_equal. simpl. lra.
  - f_equal. change 1999%nat with (2000 - 1)%nat. rewrite INR_1999. field.
  - lra.
Qed.

Lemma solve_time_grid_step :
  ∃ (current : LaplaceSolver.trace) (input : ndarray),
    LaplaceSolver._generate_numerical_solution Stub.sympy_pole
      (Sympy.Div (Sympy.Num (Fin 1)) LaplaceSolver.t) "step" ∅ (Fin 1) (Fin 1) (Fin 1)
    = Ok (Fin <$> uniform_grid 0 (2 / 100 / 1999) 2000, current, input)
    ∧ uniform_grid 0 (2 / 100 / 1999) 2000 !! 1999%nat = Some (2 / 100)%R.
Proof.
  destruct (solve_time_grid Stub.sympy_pole (Sympy.Div (Sympy.Num (Fin 1)) LaplaceSolver.t)
              "step" ∅ (2 / 100) (Fin 1) (Fin 1) (Fin 1))
    as (current & input & Hnum & _ & Hlast & _);
    [repeat constructor | reflexivity | lra |].
  exists current, input. split; assumption.
Defined.

(** X13.  [solve] raises in three cases only.  The signal kind is not
    recognised, and the exception is the [ValueError] of the transform
    builder.  Or the first [simplify], of [V(s)/Z(s)], raises, and it is
    that exception.  Or the evaluation of the expression that the inversion
    left raises nothing and returns a SymPy expression at some sample: the
    trace is then an object array and the exception is the [TypeError] of
    the inductor-voltage step.  Whatever else the inversion, [lambdify] and
    the evaluation do, [solve] returns. *)
Theorem solve_raises_iff (sp : LaplaceSolver.sympy) (m : RLCModel.RLCModel)
    (signal_type : string) (p : SignalGenerator.params) (e : exn) :
  LaplaceSolver.solve sp m signal_type p = Raise e
  ↔ ((signal_type ∉ signal_types) ∧ e = SignalGenerator.unknown_signal signal_type)
    ∨ (∃ V_s, LaplaceSolver._get_signal_laplace signal_type p = Ok V_s
              ∧ LaplaceSolver.simplify sp (Sympy.Div V_s (Z_s m)) = Raise e)
    ∨ (∃ V_s I_s i_t i_func vals,
         LaplaceSolver._get_signal_laplace signal_type p = Ok V_s
         ∧ LaplaceSolver.simplify sp (Sympy.Div V_s (Z_s m)) = Ok I_s
         ∧ invert sp I_s = Ok i_t
         ∧ LaplaceSolver.lambdify sp LaplaceSolver.t i_t = Ok i_func
         ∧ mapM i_func
             (linspace (Fin 0) (LaplaceSolver._get_duration signal_type p) 2000)
           = Ok vals
         ∧ mapM scalar_re vals = None
         ∧ e = LaplaceSolver.not_a_float).
Proof.
  pose proof (transform_built_iff_recognised signal_type p) as Hin.
  destruct (LaplaceSolver._get_signal_laplace signal_type p) as [V_s | e'] eqn:HV.
  - destruct (LaplaceSolver.simplify sp (Sympy.Div V_s (Z_s m))) as [I_s | e'] eqn:HI.
    + destruct (solve_spec sp m signal_type p V_s I_s HV HI)
        as (i_t & trace & input & Hi_t & Hnum & Hsolve).
      destruct (generate_numerical_solution_spec sp i_t V_s signal_type p
                  (RLCModel.R m) (RLCModel.L m) (RLCModel.C m) HV)
        as (input' & trace' & _ & Hnum' & _ & _ & Htrace).
      rewrite Hnum in Hnum'. injection Hnum' as <- <-.
      split.
      * intros Hraise. right. right.
        destruct trace as [current | objects].
        { destruct Hsolve as (vL & vC & _ & _ & Hsolve & _).
          by rewrite Hsolve in Hraise. }
        rewrite Hsolve in Hraise. injection Hraise as <-.
        destruct (LaplaceSolver.lambdify sp LaplaceSolver.t i_t) as [i_func |] eqn:Hf;
          [| by destruct Htrace as (c & _ & [=])].
        destruct (mapM i_func _) as [vals |] eqn:Hvals;
          [| by destruct Htrace as (c & _ & [=])].
        destruct (mapM scalar_re vals) as [c |] eqn:Hre; [done |].
        exists V_s, I_s, i_t, i_func, vals. by repeat split.
      * intros [[Hnot _] | [(V & [= <-] & Hs) | Hobj]].
        -- destruct Hnot. apply Hin. eauto.
        -- by rewrite HI in Hs.
        -- destruct Hobj as (V & I' & i_t' & i_func & vals & [= <-] & HI' & Hi_t'
                             & Hf & Hvals & Hre & ->).
           rewrite HI in HI'. injection HI' as <-.
           rewrite Hi_t in Hi_t'. injection Hi_t' as <-.
           rewrite Hf, Hvals, Hre in Htrace. subst trace. exact Hsolve.
    + assert (Hsolve : LaplaceSolver.solve sp m signal_type p = Raise e').
      { unfold LaplaceSolver.solve. rewrite HV. cbn [mbind result_bind].
        fold (Z_s m). by rewrite HI. }
      rewrite Hsolve. split.
      * intros [= <-]. right. left. eauto.
      * intros [[Hnot _] | [(V & [= <-] & Hs) | Hobj]].
        -- destruct Hnot. apply Hin. eauto.
        -- rewrite HI in Hs. by injection Hs as <-.
        -- destruct Hobj as (V & I' & _ & _ & _ & [= <-] & HI' & _).
           by rewrite HI in HI'.
  - assert (Hnot : signal_type ∉ signal_types).
    { intros [V HV']%Hin. done. }
    assert (He' : e' = SignalGenerator.unknown_signal signal_type).
    { unfold LaplaceSolver._get_signal_laplace in HV.
      repeat case_decide; try done. by injection HV as <-. }
    assert (Hsolve : LaplaceSolver.solve sp m signal_type p = Raise e').
    { unfold LaplaceSolver.solve. by rewrite HV. }
    rewrite Hsolve, He'. split.
    + intros [= <-]. by left.
    + intros [[_ ->] | [(V & [=] & _) | (V & I' & _ & _ & _ & [=] & _)]]. done.
Qed.

(** ** The Euler simulation and the capacitor voltage: bounds and dependence *)

Lemma getitem_ge {A} (l : list A) k : (length l ≤ k)%nat → getitem l k = Raise IndexError.
Proof. intros Hk. unfold getitem. by rewrite lookup_ge_None_2. Qed.

(** X15.  On a time grid of fewer than two points both the Euler simulation
    and the capacitor-voltage integration raise [IndexError], reading
    [time[1]], whatever the other arguments are, an empty current
    included. *)
Theorem short_grid_raises_index_error (time_array input_signal current : ndarray)
    (R L C : float) :
  (length time_array < 2)%nat →
  LaplaceSolver._numerical_simulation time_array input_signal R L C = Raise IndexError
  ∧ LaplaceSolver._calculate_voltage_C time_array current C = Raise IndexError.
Proof.
  intros Hlen.
  unfold LaplaceSolver._numerical_simulation, LaplaceSolver._calculate_voltage_C.
  by rewrite !(getitem_ge time_array 1) by lia.
Qed.

Lemma short_grid_raises_index_error_one_point :
  LaplaceSolver._numerical_simulation [Fin 0] [Fin 1] (Fin 1) (Fin 1) (Fin 1)
  = Raise IndexError
  ∧ LaplaceSolver._calculate_voltage_C [Fin 0] [] (Fin 1) = Raise IndexError.
Proof. apply short_grid_raises_index_error. simpl. lia. Defined.

Lemma for_loop_ext {S} (ks : list nat) (body body' : nat → S → result S) (st : S) :
  (∀ k s, k ∈ ks → body k s = body' k s) →
  LaplaceSolver.for_loop ks body st = LaplaceSolver.for_loop ks body' st.
Proof.
  revert st. induction ks as [| k ks IH]; intros st Hext; [done |]. simpl.
  rewrite Hext by left. destruct (body' k st) as [s' |]; simpl; [| done].
  apply IH. intros k' s Hk'. apply Hext. by right.
Qed.

(** X16.  The Euler simulation reads the time grid only through its length
    and its first two points, and the input only up to the last but one
    sample: two calls that agree on these return the same result, also when
    the rest of the grid is not uniform or the last input samples differ. *)
Theorem euler_reads_first_spacing_only (time_array time_array' input_signal input_signal'
    : ndarray) (R L C : float) :
  length time_array = length time_array' →
  time_array !! 0%nat = time_array' !! 0%nat →
  time_array !! 1%nat = time_array' !! 1%nat →
  (∀ k, (k + 1 < length time_array)%nat → input_signal !! k = input_signal' !! k) →
  LaplaceSolver._numerical_simulation time_array input_signal R L C
  = LaplaceSolver._numerical_simulation time_array' input_signal' R L C.
Proof.
  intros Hlen H0 H1 Hin.
  unfold LaplaceSolver._numerical_simulation, getitem.
  rewrite <- H0, <- H1, <- Hlen.
  destruct (time_array !! 1%nat) as [t1 |]; [| done].
  destruct (time_array !! 0%nat) as [t0 |]; [| done].
  cbn [mbind result_bind]. f_equal.
  apply for_loop_ext. intros k [i v] Hk. apply elem_of_seq in Hk.
  unfold LaplaceSolver.euler_body, getitem.
  rewrite (Hin (k - 1)%nat) by lia. done.
Qed.

Lemma euler_reads_first_spacing_only_example :
  LaplaceSolver._numerical_simulation [Fin 0; Fin 1; Fin 2] [Fin 1; Fin 1; Fin 1]
    (Fin 1) (Fin 1) (Fin 1)
  = LaplaceSolver._numerical_simulation [Fin 0; Fin 1; Fin 5] [Fin 1; Fin 1; Fin 7]
      (Fin 1) (Fin 1) (Fin 1).
Proof.
  apply euler_reads_first_spacing_only; [reflexivity | reflexivity | reflexivity |].
  intros k Hk. simpl in Hk.
  destruct k as [| [| k]]; [reflexivity | reflexivity | lia].
Defined.

Lemma for_loop_app {S} (ks ks' : list nat) (body : nat → S → result S) (st : S) :
  LaplaceSolver.for_loop (ks ++ ks') body st
  = st' ← LaplaceSolver.for_loop ks body st; LaplaceSolver.for_loop ks' body st'.
Proof.
  revert st. induction ks as [| k ks IH]; intros st; [done |]. simpl.
  destruct (body k st) as [s |]; simpl; [apply IH | done].
Qed.

(** X17.  With at least two grid points but fewer than [N − 1] input
    samples for a grid of [N] points, the Euler simulation raises
    [IndexError]: the loop runs for the steps that have an input sample
    and stops at the first that has none. *)
Theorem euler_short_input_raises (time_array input_signal : ndarray) (R L C : float) :
  (2 ≤ length time_array)%nat →
  (length input_signal + 1 < length time_array)%nat →
  LaplaceSolver._numerical_simulation time_array input_signal R L C = Raise IndexError.
Proof.
  intros Hn Hshort. unfold LaplaceSolver._numerical_simulation.
  destruct (getitem_lt time_array 1) as [t1 ->]; [lia |].
  destruct (getitem_lt time_array 0) as [t0 ->]; [lia |]. cbn [mbind result_bind].
  set (n := length time_array) in *. set (len := length input_signal) in *.
  unfold LaplaceSolver.range1.
  replace (n - 1)%nat with (len + S (n - 2 - len))%nat by lia.
  rewrite seq_app, for_loop_app.
  destruct (for_loop_invariant
              (λ st : ndarray * ndarray, length st.1 = n ∧ length st.2 = n)
              (seq 1 len)
              (LaplaceSolver.euler_body input_signal R L C (t1 - t0))
              (zeros n, zeros n)) as ([i v] & -> & Hi & Hv).
  - simpl. by rewrite !zeros_length.
  - intros k [i v] Hk (Hi & Hv). simpl in Hi, Hv.
    apply elem_of_seq in Hk. unfold LaplaceSolver.euler_body.
    destruct (getitem_lt input_signal (k - 1)) as [x ->]; [lia |].
    destruct (getitem_lt i (k - 1)) as [y ->]; [lia |].
    destruct (getitem_lt v (k - 1)) as [z Hz]; [lia |]. rewrite Hz. simpl.
    rewrite setitem_lt by lia. simpl.
    match goal with |- context [getitem (<[k := ?w]> i) (k - 1)] =>
      destruct (getitem_lt (<[k := w]> i) (k - 1)) as [y' ->];
        [rewrite length_insert; lia |]
    end.
    simpl. rewrite setitem_lt by lia. simpl.
    eexists; split; [done |]. simpl. by rewrite !length_insert.
  - simpl in Hi, Hv. cbn [mbind result_bind seq LaplaceSolver.for_loop].
    assert (Hbody : LaplaceSolver.euler_body input_signal R L C (t1 - t0) (1 + len) (i, v)
                    = Raise IndexError).
    { unfold LaplaceSolver.euler_body.
      replace (1 + len - 1)%nat with len by lia.
      by rewrite (getitem_ge input_signal len) by lia. }
    by rewrite Hbody.
Qed.

Lemma euler_short_input_raises_example :
  LaplaceSolver._numerical_simulation [Fin 0; Fin 1; Fin 2] [Fin 1] (Fin 1) (Fin 1) (Fin 1)
  = Raise IndexError.
Proof. apply euler_short_input_raises; simpl; lia. Defined.

Section Trapezoid.
Variables (c dt : R) (current : list R).
Hypothesis Hc : c ≠ 0%R.

Let n : nat := length current.
Let cur (k : nat) : R := default 0%R (current !! k).
Let state := trapezoid_state c dt cur n.
Let body := LaplaceSolver.trapezoid_body (Fin <$> current) (Fin c) (Fin dt).

Lemma trapezoid_state_0 : state 0%nat = zeros_like (Fin <$> current).
Proof.
  unfold state, trapezoid_state, zeros_like. rewrite length_fmap, <- tabulate_zeros.
  apply tabulate_ext; intros k _. case_decide; [| done].
  by replace k with 0%nat by lia.
Qed.

Lemma trapezoid_state_last :
  state (n - 1)%nat = Fin <$> tabulate (trapezoid_spec c dt cur) n.
Proof.
  unfold state, trapezoid_state. rewrite tabulate_fmap.
  apply tabulate_ext; intros k Hk. simpl. by rewrite decide_True by lia.
Qed.

Lemma trapezoid_body_step j : (S j < n)%nat → body (S j) (state j) = Ok (state (S j)).
Proof.
  intros Hj. unfold body, LaplaceSolver.trapezoid_body, state, trapezoid_state.
  replace (S j - 1)%nat with j by lia.
  assert (Hcur : ∀ k, (k < n)%nat → getitem (Fin <$> current) k = Ok (Fin (cur k))).
  { intros k Hk. apply getitem_Some. rewrite list_lookup_fmap. unfold cur.
    destruct (lookup_lt_is_Some_2 current k) as [x ->]; [done | done]. }
  rewrite getitem_tabulate by lia. cbn [mbind result_bind].
  rewrite !Hcur by lia. cbn [mbind result_bind].
  rewrite decide_True by lia.
  rewrite setitem_lt by (rewrite tabulate_length; lia).
  rewrite tabulate_insert. f_equal.
  apply tabulate_ext; intros k Hk.
  destruct (decide (k = S j)) as [-> | Hne].
  - rewrite decide_True by lia.
    repeat (autorewrite with float; rewrite ?np_div_fin by (done || lra)).
    done.
  - repeat case_decide; try done; lia.
Qed.

Lemma trapezoid_loop m a :
  (a + m < n)%nat →
  LaplaceSolver.for_loop (seq (S a) m) body (state a) = Ok (state (a + m)%nat).
Proof.
  revert a. induction m as [| m IH]; intros a Ham;
    cbn [seq LaplaceSolver.for_loop].
  - by replace (a + 0)%nat with a by lia.
  - rewrite trapezoid_body_step by lia. cbn [mbind result_bind].
    rewrite IH by lia. by replace (S a + m)%nat with (a + S m)%nat by lia.
Qed.

End Trapezoid.

(** X14.  The capacitor voltage is the running trapezoid sum of the
    current: it has one sample per current sample, starts at 0, and each
    later sample adds [(i[k] + i[k−1])/2 · dt / C] to the one before, [dt]
    being the distance of the first two grid points.  Only those two points
    of the grid are read; an empty current gives an empty voltage. *)
Theorem voltage_C_is_running_trapezoid (c : R) (time current : list R) (t0 t1 : R) :
  c ≠ 0%R →
  time !! 0%nat = Some t0 → time !! 1%nat = Some t1 →
  let dt := (t1 - t0)%R in
  ∃ v : list R,
    LaplaceSolver._calculate_voltage_C (Fin <$> time) (Fin <$> current) (Fin c)
      = Ok (Fin <$> v)
    ∧ length v = length current
    ∧ (∀ x, v !! 0%nat = Some x → x = 0%R)
    ∧ ∀ k i_k i_prev v_prev,
        current !! S k = Some i_k → current !! k = Some i_prev →
        v !! k = Some v_prev →
        v !! S k = Some (v_prev + (i_k + i_prev) / 2 * dt / c)%R.
Proof.
  intros Hc Ht0 Ht1 dt.
  set (cur := λ k : nat, default 0%R (current !! k)).
  exists (tabulate (trapezoid_spec c dt cur) (length current)).
  split; [| split; [apply tabulate_length | split]].
  - unfold LaplaceSolver._calculate_voltage_C.
    rewrite (getitem_Some (Fin <$> time) 1 (Fin t1)) by (by rewrite list_lookup_fmap, Ht1).
    rewrite (getitem_Some (Fin <$> time) 0 (Fin t0)) by (by rewrite list_lookup_fmap, Ht0).
    cbn [mbind result_bind]. rewrite length_fmap, sub_fin. fold dt.
    destruct (decide (length current = 0%nat)) as [Hz | Hnz].
    { apply nil_length_inv in Hz. subst cur. by rewrite Hz. }
    rewrite <- (trapezoid_state_0 c dt current).
    unfold LaplaceSolver.range1.
    rewrite (trapezoid_loop c dt current Hc (length current - 1) 0) by lia.
    f_equal. apply (trapezoid_state_last c dt current).
  - intros x Hx. apply lookup_lt_Some in Hx as Hlt. rewrite tabulate_length in Hlt.
    rewrite tabulate_lookup in Hx by done. by injection Hx as <-.
  - intros k i_k i_prev v_prev Hk Hprev Hv.
    apply lookup_lt_Some in Hk as Hlt.
    rewrite tabulate_lookup in Hv by lia. injection Hv as <-.
    rewrite tabulate_lookup by done. simpl. unfold cur. by rewrite Hk, Hprev.
Qed.

Lemma voltage_C_is_running_trapezoid_example :
  ∃ v : list R,
    LaplaceSolver._calculate_voltage_C (Fin <$> [0; 1; 2]%R) (Fin <$> [0; 2; 4]%R) (Fin 1)
      = Ok (Fin <$> v)
    ∧ length v = 3%nat.
Proof.
  destruct (voltage_C_is_running_trapezoid 1 [0; 1; 2]%R [0; 2; 4]%R 0 1)
    as (v & Hv & Hlen & _); [lra | reflexivity | reflexivity |].
  exists v. split; assumption.
Defined.

(** The Euler simulation with a finite first spacing [dt] and finite input
    samples returns the specification's sequence of currents. *)
Lemma numerical_simulation_value (r l c dt : R) (time_array : ndarray) (vin : list R)
    (t0 t1 : float) :
  l ≠ 0%R → c ≠ 0%R →
  time_array !! 0%nat = Some t0 → time_array !! 1%nat = Some t1 →
  t1 - t0 = Fin dt →
  length vin = length time_array →
  LaplaceSolver._numerical_simulation time_array (Fin <$> vin) (Fin r) (Fin l) (Fin c)
  = Ok (Fin <$> tabulate
          (λ k, (euler_spec r l c dt (λ k, default 0%R (vin !! k)) k).1)
          (length time_array)).
Proof.
  intros Hl Hc Ht0 Ht1 Hdt Hlen.
  assert (HN : (2 ≤ length time_array)%nat) by (apply lookup_lt_Some in Ht1; lia).
  unfold LaplaceSolver._numerical_simulation.
  rewrite (getitem_Some time_array 1 t1), (getitem_Some time_array 0 t0) by done.
  cbn [mbind result_bind]. rewrite Hdt.
  rewrite <- (euler_state_0 r l c dt vin (length time_array) Hlen).
  unfold LaplaceSolver.range1.
  rewrite (euler_loop r l c dt vin (length time_array) Hl Hc Hlen
             (length time_array - 1) 0) by lia.
  cbn [mbind result_bind]. f_equal.
  apply (euler_state_last r l c dt vin (length time_array) Hlen).
Qed.

Lemma euler_spec_zero (r l c dt : R) (V : nat → R) (k : nat) :
  (∀ j, V j = 0%R) → euler_spec r l c dt V k = (0%R, 0%R).
Proof.
  intros HV. induction k as [| k IH]; [done |]. simpl. rewrite IH, HV.
  f_equal; unfold Rdiv; ring.
Qed.

(** X18.  A circuit at rest stays at rest: for a finite [R], finite
    non-zero [L] and [C], and a grid whose first spacing [t[1] − t[0]] is
    computed finite, the Euler simulation of an all-zero input returns the
    all-zero current. *)
Theorem euler_zero_input_zero_current (r l c dt : R) (time_array : ndarray)
    (t0 t1 : float) :
  l ≠ 0%R → c ≠ 0%R →
  time_array !! 0%nat = Some t0 → time_array !! 1%nat = Some t1 →
  t1 - t0 = Fin dt →
  LaplaceSolver._numerical_simulation time_array (zeros (length time_array))
    (Fin r) (Fin l) (Fin c)
  = Ok (zeros (length time_array)).
Proof.
  intros Hl Hc Ht0 Ht1 Hdt.
  assert (Hzeros : zeros (length time_array)
                   = Fin <$> replicate (length time_array) 0%R).
  { unfold zeros. by rewrite fmap_replicate. }
  rewrite Hzeros at 1.
  rewrite (numerical_simulation_value r l c dt time_array _ t0 t1)
    by (done || by rewrite length_replicate).
  f_equal. rewrite <- tabulate_zeros, tabulate_fmap. apply tabulate_ext.
  intros k _. unfold compose. f_equal.
  rewrite (euler_spec_zero r l c dt _ k); [done |].
  intros j. destruct (replicate (length time_array) 0%R !! j) as [x |] eqn:Hx; [| done].
  by apply lookup_replicate in Hx as [-> _].
Qed.

Lemma euler_zero_input_zero_current_example :
  LaplaceSolver._numerical_simulation (Fin <$> [0; 1; 2]%R) (zeros 3)
    (Fin 1) (Fin 1) (Fin 1)
  = Ok (zeros 3).
Proof.
  change (zeros 3) with (zeros (length (Fin <$> [0; 1; 2]%R))).
  apply (euler_zero_input_zero_current 1 1 1 (1 - 0) (Fin <$> [0; 1; 2]%R)
           (Fin 0) (Fin 1));
    first [lra | reflexivity].
Defined.

(** ** The transform domain *)

(** X19.  The transform that is built for a pulse of width [a] has, at every
    [s > 0], the value of the transform of the step minus that of the step
    delayed by [a]: the transform builder decomposes the pulse as the
    sampler does. *)
Theorem pulse_transform_is_step_minus_delayed (A a : R) (p : SignalGenerator.params)
    (sv : R) :
  p !! "amplitude" = Some (Fin A) →
  p !! "a" = Some (Fin a) →
  (0 < sv)%R →
  ∃ (pulse step delayed : Sympy.Expr) (v_pulse v_step v_delayed : R),
    LaplaceSolver._get_signal_laplace "pulse" p = Ok pulse
    ∧ LaplaceSolver._get_signal_laplace "step" p = Ok step
    ∧ LaplaceSolver._get_signal_laplace "delayed" (<["t0" := Fin a]> p) = Ok delayed
    ∧ denote sv pulse = Some v_pulse
    ∧ denote sv step = Some v_step
    ∧ denote sv delayed = Some v_delayed
    ∧ v_pulse = (v_step - v_delayed)%R.
Proof.
  intros HA Ha Hsv.
  unfold LaplaceSolver._get_signal_laplace; simpl.
  rewrite !(dict_get_Some _ "amplitude" (Fin A)), (dict_get_Some _ "a" (Fin a)),
    (dict_get_Some _ "t0" (Fin a)); try done;
    [| by rewrite lookup_insert_eq | by rewrite lookup_insert_ne].
  eexists _, _, _, _, _, _. repeat (split; [reflexivity |]).
  simpl. rewrite !decide_False by lra. simpl.
  repeat (split; [reflexivity |]). ring.
Qed.

Lemma pulse_transform_is_step_minus_delayed_example :
  let p : SignalGenerator.params := {[ "amplitude" := Fin 5; "a" := Fin (1 / 1000) ]} in
  ∃ (pulse step delayed : Sympy.Expr) (v_pulse v_step v_delayed : R),
    LaplaceSolver._get_signal_laplace "pulse" p = Ok pulse
    ∧ LaplaceSolver._get_signal_laplace "step" p = Ok step
    ∧ LaplaceSolver._get_signal_laplace "delayed" (<["t0" := Fin (1 / 1000)]> p)
      = Ok delayed
    ∧ denote 1 pulse = Some v_pulse
    ∧ denote 1 step = Some v_step
    ∧ denote 1 delayed = Some v_delayed
    ∧ v_pulse = (v_step - v_delayed)%R.
Proof.
  intros p.
  apply (pulse_transform_is_step_minus_delayed 5 (1 / 1000) p 1);
    [reflexivity | reflexivity | lra].
Defined.

(** X20.  For a circuit of positive [R], [L], [C] the expression
    [V(s)/Z(s)] that [solve] hands to [simplify] has, at every [s > 0] where
    [V(s)] has the value [v], the value [v·s·C / (L·C·s² + R·C·s + 1)]: the
    impedance [R + s·L + 1/(s·C)] is defined and not zero there. *)
Theorem transform_current_value (m : RLCModel.RLCModel) (r l c : R)
    (V_s : Sympy.Expr) (v sv : R) :
  RLCModel.R m = Fin r → RLCModel.L m = Fin l → RLCModel.C m = Fin c →
  (0 < r)%R → (0 < l)%R → (0 < c)%R → (0 < sv)%R →
  denote sv V_s = Some v →
  denote sv (Z_s m) = Some (r + sv * l + 1 / (sv * c))%R
  ∧ denote sv (Sympy.Div V_s (Z_s m))
    = Some (v * (sv * c) / (l * c * (sv * sv) + r * c * sv + 1))%R.
Proof.
  intros HR HL HC Hr Hl Hc Hsv Hv.
  assert (Hsc : (0 < sv * c)%R) by nra.
  assert (Hinv : (0 < 1 / (sv * c))%R) by (apply Rdiv_lt_0_compat; lra).
  assert (HZ : denote sv (Z_s m) = Some (r + sv * l + 1 / (sv * c))%R).
  { unfold Z_s. rewrite HR, HL, HC. simpl. by rewrite decide_False by lra. }
  split; [exact HZ |].
  change (denote sv (Sympy.Div V_s (Z_s m)))
    with (x ← denote sv V_s; y ← denote sv (Z_s m);
          if decide (y = 0%R) then None else Some (x / y)%R).
  assert (Hsl : (0 < sv * l)%R) by nra.
  rewrite Hv, HZ. simpl. rewrite decide_False by lra.
  f_equal. field. split; nra.
Qed.

Lemma transform_current_value_step :
  let m := RLCModel.mk (Fin 1) (Fin 1) (Fin 1) (Fin 1) (Fin (1 / 2)) (Fin 1)
             "subamortiguado" (Fin 1) in
  denote 1 (Sympy.Div (Sympy.Div (Sympy.Num (Fin 3)) LaplaceSolver.s) (Z_s m))
  = Some (3 / 1 * (1 * 1) / (1 * 1 * (1 * 1) + 1 * 1 * 1 + 1))%R.
Proof.
  intros m.
  apply (transform_current_value m 1 1 1
           (Sympy.Div (Sympy.Num (Fin 3)) LaplaceSolver.s) (3 / 1) 1);
    try reflexivity; try lra.
  simpl. rewrite decide_False by lra. reflexivity.
Defined.

(** ** The [simulate] handler *)

(** X21.  [simulate] never stores a circuit model with a parameter that is
    [<= 0]: after a call the window holds the model it held before, or a
    model built from the form's [R], [L], [C], none of which is [<= 0]. *)
Theorem simulate_stores_only_validated_models {Fig : Type} (sp : LaplaceSolver.sympy)
    (ui : MainWindow.view Fig) (self : MainWindow.MainWindow Fig)
    (get_parameters : result MainWindow.parameters) :
  let self' := (MainWindow.simulate sp ui self get_parameters).1 in
  MainWindow.rlc_model self' = MainWindow.rlc_model self
  ∨ ∃ p m,
      get_parameters = Ok p
      ∧ MainWindow.rlc_model self' = Some m
      ∧ RLCModel.__init__ (MainWindow.R p) (MainWindow.L p) (MainWindow.C p) = Ok m
      ∧ (MainWindow.R p <=? Fin 0) = false
      ∧ (MainWindow.L p <=? Fin 0) = false
      ∧ (MainWindow.C p <=? Fin 0) = false.
Proof.
  unfold MainWindow.simulate.
  destruct get_parameters as [p | e]; [| by left].
  destruct (MainWindow.R p <=? Fin 0) eqn:HR; [by left |].
  destruct (MainWindow.L p <=? Fin 0) eqn:HL; [by left |].
  destruct (MainWindow.C p <=? Fin 0) eqn:HC; [by left |].
  cbn [orb].
  destruct (RLCModel.__init__ _ _ _) as [m | e] eqn:Hm; [| by left].
  right. exists p, m.
  repeat case_match; simpl; repeat split; done.
Qed.

(** X22.  [simulate] ends with the information box exactly when every step
    succeeded: the form was read, no parameter is [<= 0], the model was
    built, [solve] returned, the view formatted the solution, the plotter
    drew it on the cleared figure and the canvas rendered it.  The window
    then holds this model, this text and the figure that the plotter made
    of this solution. *)
Theorem simulate_succeeds_iff {Fig : Type} (sp : LaplaceSolver.sympy)
    (ui : MainWindow.view Fig) (self self' : MainWindow.MainWindow Fig)
    (get_parameters : result MainWindow.parameters) (title text : string) :
  MainWindow.simulate sp ui self get_parameters = (self', MainWindow.information title text)
  ↔ ∃ p m solution formatted drawn,
      get_parameters = Ok p
      ∧ (MainWindow.R p <=? Fin 0) || (MainWindow.L p <=? Fin 0)
          || (MainWindow.C p <=? Fin 0) = false
      ∧ RLCModel.__init__ (MainWindow.R p) (MainWindow.L p) (MainWindow.C p) = Ok m
      ∧ LaplaceSolver.solve sp m (MainWindow.signal_type p) (MainWindow.signal_params p)
        = Ok solution
      ∧ MainWindow._format_symbolic_solution ui (LaplaceSolver.symbolic solution)
        = Ok formatted
      ∧ MainWindow.plot_results ui (MainWindow.figure_clear ui (MainWindow.figure self))
          solution (MainWindow.signal_type p)
        = (drawn, Ok ())
      ∧ MainWindow.canvas_draw ui drawn = Ok ()
      ∧ self' = MainWindow.mk (Some m) formatted drawn
      ∧ title = "Éxito" ∧ text = "Simulación completada correctamente".
Proof.
  unfold MainWindow.simulate. split.
  - destruct get_parameters as [p | e]; [| done].
    destruct (_ || _) eqn:Hguard; [done |].
    destruct (RLCModel.__init__ _ _ _) as [m | e] eqn:Hm; [| done].
    destruct (LaplaceSolver.solve _ _ _ _) as [solution | e] eqn:Hsol; [| done].
    destruct (MainWindow._format_symbolic_solution _ _) as [formatted | e] eqn:Hf; [| done].
    cbn [MainWindow.figure MainWindow.rlc_model MainWindow.solution_text].
    destruct (MainWindow.plot_results _ _ _ _) as [drawn [[] | e]] eqn:Hp; [| done].
    cbn [MainWindow.figure MainWindow.rlc_model MainWindow.solution_text].
    destruct (MainWindow.canvas_draw _ _) as [[] | e] eqn:Hd; [| done].
    intros [= <- <- <-]. exists p, m, solution, formatted, drawn. by repeat split.
  - intros (p & m & solution & formatted & drawn
            & -> & -> & -> & -> & -> & Hp & Hd & -> & -> & ->).
    cbn [MainWindow.figure MainWindow.rlc_model MainWindow.solution_text].
    rewrite Hp. cbn [MainWindow.figure MainWindow.rlc_model MainWindow.solution_text].
    by rewrite Hd.
Qed.

Lemma simulate_from_solve {Fig : Type} (sp : LaplaceSolver.sympy)
    (ui : MainWindow.view Fig) (self : MainWindow.MainWindow Fig)
    (p : MainWindow.parameters) (m : RLCModel.RLCModel) :
  (MainWindow.R p <=? Fin 0) || (MainWindow.L p <=? Fin 0) || (MainWindow.C p <=? Fin 0)
    = false →
  RLCModel.__init__ (MainWindow.R p) (MainWindow.L p) (MainWindow.C p) = Ok m →
  let kept e :=
    (MainWindow.mk (Some m) (MainWindow.solution_text self) (MainWindow.figure self),
     MainWindow.critical "Error" e) in
  MainWindow.simulate sp ui self (Ok p)
  = match LaplaceSolver.solve sp m (MainWindow.signal_type p) (MainWindow.signal_params p)
    with
    | Raise e => kept e
    | Ok solution =>
        match MainWindow._format_symbolic_solution ui (LaplaceSolver.symbolic solution)
        with
        | Raise e => kept e
        | Ok formatted =>
            let '(drawn, plotted) :=
              MainWindow.plot_results ui
                (MainWindow.figure_clear ui (MainWindow.figure self)) solution
                (MainWindow.signal_type p) in
            let self' := MainWindow.mk (Some m) formatted drawn in
            match plotted with
            | Raise e => (self', MainWindow.critical "Error" e)
            | Ok _ =>
                match MainWindow.canvas_draw ui drawn with
                | Raise e => (self', MainWindow.critical "Error" e)
                | Ok _ =>
                    (self',
                     MainWindow.information "Éxito" "Simulación completada correctamente")
                end
            end
        end
    end.
Proof.
  intros Hguard Hm kept. unfold MainWindow.simulate. rewrite Hguard, Hm.
  destruct (LaplaceSolver.solve _ _ _ _) as [solution | e]; [| done].
  destruct (MainWindow._format_symbolic_solution _ _) as [formatted | e]; [| done].
  cbn [MainWindow.figure MainWindow.rlc_model MainWindow.solution_text].
  by destruct (MainWindow.plot_results _ _ _ _) as [drawn [[] | e]].
Qed.

(** X23.  A failure after the model was built leaves the window partly
    updated, and the critical box carries the exception.  If [solve] or the
    formatting raises, the new model is stored while the text and the figure
    of the previous run stay.  If the plotter raises, the new model and the
    new text are stored and the figure is what the plotter had made of the
    cleared figure when it raised.  If the canvas raises, the window holds
    the new model, the new text and the complete new plot. *)
Theorem simulate_partial_update {Fig : Type} (sp : LaplaceSolver.sympy)
    (ui : MainWindow.view Fig) (self : MainWindow.MainWindow Fig)
    (p : MainWindow.parameters) (m : RLCModel.RLCModel) (e : exn) :
  (MainWindow.R p <=? Fin 0) || (MainWindow.L p <=? Fin 0) || (MainWindow.C p <=? Fin 0)
    = false →
  RLCModel.__init__ (MainWindow.R p) (MainWindow.L p) (MainWindow.C p) = Ok m →
  let solve := LaplaceSolver.solve sp m (MainWindow.signal_type p) (MainWindow.signal_params p) in
  let plot solution :=
    MainWindow.plot_results ui (MainWindow.figure_clear ui (MainWindow.figure self))
      solution (MainWindow.signal_type p) in
  let kept :=
    MainWindow.mk (Some m) (MainWindow.solution_text self) (MainWindow.figure self) in
  (solve = Raise e →
   MainWindow.simulate sp ui self (Ok p) = (kept, MainWindow.critical "Error" e))
  ∧ (∀ solution,
       solve = Ok solution →
       MainWindow._format_symbolic_solution ui (LaplaceSolver.symbolic solution)
         = Raise e →
       MainWindow.simulate sp ui self (Ok p) = (kept, MainWindow.critical "Error" e))
  ∧ (∀ solution formatted drawn,
       solve = Ok solution →
       MainWindow._format_symbolic_solution ui (LaplaceSolver.symbolic solution)
         = Ok formatted →
       plot solution = (drawn, Raise e)
       ∨ plot solution = (drawn, Ok ()) ∧ MainWindow.canvas_draw ui drawn = Raise e →
       MainWindow.simulate sp ui self (Ok p)
       = (MainWindow.mk (Some m) formatted drawn, MainWindow.critical "Error" e)).
Proof.
  intros Hguard Hm solve plot kept.
  rewrite (simulate_from_solve sp ui self p m Hguard Hm). fold solve.
  split; [by intros -> |]. split.
  - intros solution -> Hf. by rewrite Hf.
  - intros solution formatted drawn -> Hf Hplot. rewrite Hf. fold (plot solution).
    destruct Hplot as [-> | [-> Hd]]; [done |]. by rewrite Hd.
Qed.

Lemma guard_passes_positive (r l c : R) :
  (0 < r)%R → (0 < l)%R → (0 < c)%R →
  (Fin r <=? Fin 0) || (Fin l <=? Fin 0) || (Fin c <=? Fin 0) = false.
Proof.
  intros Hr Hl Hc. rewrite !leb_fin.
  rewrite !bool_decide_eq_false_2; [done | lra ..].
Qed.

(** With the stand-in whose inversion returns [1/t], [solve] returns for
    a step. *)
Lemma solve_pole_step (m : RLCModel.RLCModel) :
  ∃ solution, LaplaceSolver.solve Stub.sympy_pole m "step" ∅ = Ok solution.
Proof.
  set (V_s := Sympy.Div (Sympy.Num (Fin 1)) LaplaceSolver.s).
  assert (HV : LaplaceSolver._get_signal_laplace "step" ∅ = Ok V_s) by reflexivity.
  destruct (solve_spec Stub.sympy_pole m "step" ∅ V_s _ HV eq_refl)
    as (i_t & trace & input & Hi_t & Hnum & Hsolve).
  injection Hi_t as <-.
  destruct (generate_numerical_solution_spec Stub.sympy_pole
              (Sympy.Div (Sympy.Num (Fin 1)) LaplaceSolver.t) V_s "step" ∅
              (RLCModel.R m) (RLCModel.L m) (RLCModel.C m) HV)
    as (input' & trace' & _ & Hnum' & _ & _ & Htrace).
  rewrite Hnum in Hnum'. injection Hnum' as <- <-.
  simpl in Htrace.
  rewrite lambdify_pole_values, mapM_scalar_re_floats in Htrace. subst trace.
  destruct Hsolve as (vL & vC & _ & _ & Hsolve & _). eauto.
Qed.

Lemma simulate_partial_update_failed_plot :
  ∃ m,
    RLCModel.__init__ (Fin 1) (Fin 1) (Fin 1) = Ok m
    ∧ MainWindow.simulate Stub.sympy_pole Stub.view_ok Stub.empty_window
        (Ok (MainWindow.mkParameters (Fin 1) (Fin 1) (Fin 1) "square" ∅))
      = (MainWindow.mk (Some m) "" None,
         MainWindow.critical "Error" (SignalGenerator.unknown_signal "square"))
    ∧ MainWindow.simulate Stub.sympy_pole Stub.view_plot_fails
        (MainWindow.mk None "previous text" ["previous axes"])
        (Ok (MainWindow.mkParameters (Fin 1) (Fin 1) (Fin 1) "step" ∅))
      = (MainWindow.mk (Some m) "" ["Señal de Entrada V(t)"],
         MainWindow.critical "Error" (ValueError "plot")).
Proof.
  destruct (init_positive 1 1 1) as [m Hm]; try lra.
  exists m. split; [exact Hm |]. split.
  - destruct (simulate_partial_update Stub.sympy_pole Stub.view_ok Stub.empty_window
                (MainWindow.mkParameters (Fin 1) (Fin 1) (Fin 1) "square" ∅) m
                (SignalGenerator.unknown_signal "square")) as [Hsolve _].
    + apply guard_passes_positive; lra.
    + exact Hm.
    + apply Hsolve. reflexivity.
  - destruct (solve_pole_step m) as [solution Hsolution].
    destruct (simulate_partial_update Stub.sympy_pole Stub.view_plot_fails
                (MainWindow.mk None "previous text" ["previous axes"])
                (MainWindow.mkParameters (Fin 1) (Fin 1) (Fin 1) "step" ∅) m
                (ValueError "plot")) as (_ & _ & Hplot).
    + apply guard_passes_positive; lra.
    + exact Hm.
    + apply (Hplot solution); [exact Hsolution | reflexivity | by left].
Defined.




(** ** Reading the form *)

Lemma getitem_int_signal_types (i : Z) (kind : string) :
  (-1 ≤ i)%Z →
  ParameterForm.getitem_int signal_types i = Ok kind →
  (i = 0%Z ∧ kind = "step") ∨ (i = 1%Z ∧ kind = "pulse") ∨ (i = 2%Z ∧ kind = "ramp")
  ∨ (i = 3%Z ∧ kind = "delayed") ∨ ((i = 4%Z ∨ i = (-1)%Z) ∧ kind = "impulse").
Proof.
  intros Hi. unfold ParameterForm.getitem_int, signal_types. simpl length.
  destruct (decide (0 ≤ i)%Z) as [Hpos | Hneg].
  - destruct (decide (i = 0)%Z) as [-> | ?]; [intros [= <-]; tauto |].
    destruct (decide (i = 1)%Z) as [-> | ?]; [intros [= <-]; tauto |].
    destruct (decide (i = 2)%Z) as [-> | ?]; [intros [= <-]; tauto |].
    destruct (decide (i = 3)%Z) as [-> | ?]; [intros [= <-]; tauto |].
    destruct (decide (i = 4)%Z) as [-> | ?]; [intros [= <-]; tauto |].
    rewrite getitem_ge; [done | simpl; lia].
  - assert (i = -1)%Z as -> by lia. simpl. intros [= <-]. tauto.
Qed.

(** X25.  What [get_parameters] returns for a combo index that Qt can give
    ([-1] or more) names one of the five kinds and carries exactly the
    parameters that the solver reads for that kind: the amplitude always,
    the width [a] exactly for a pulse, the delay [t0] exactly for a delayed
    step.  Through the form the solver's defaults are never used. *)
Theorem get_parameters_keys (py_float : string → result float)
    (form : ParameterForm.ParameterForm) (prm : MainWindow.parameters) :
  (-1 ≤ ParameterForm.signal_combo form)%Z →
  ParameterForm.get_parameters py_float form = Ok prm →
  MainWindow.signal_type prm ∈ signal_types
  ∧ is_Some (MainWindow.signal_params prm !! "amplitude")
  ∧ (is_Some (MainWindow.signal_params prm !! "a") ↔ MainWindow.signal_type prm = "pulse")
  ∧ (is_Some (MainWindow.signal_params prm !! "t0")
     ↔ MainWindow.signal_type prm = "delayed").
Proof.
  intros Hidx. unfold ParameterForm.get_parameters.
  destruct (py_float (ParameterForm.r_input form)) as [R |]; [| done].
  destruct (py_float (ParameterForm.l_input form)) as [L |]; [| done].
  destruct (py_float (ParameterForm.c_input form)) as [C |]; [| done].
  cbn [mbind result_bind].
  destruct (ParameterForm.getitem_int _ _) as [kind |] eqn:Hkind; [| done].
  destruct (py_float (ParameterForm.amplitude_input form)) as [A |]; [| done].
  cbn [mbind result_bind].
  apply getitem_int_signal_types in Hkind; [| done].
  destruct Hkind as [[-> ->] | [[-> ->] | [[-> ->] | [[-> ->] | [[-> | ->] ->]]]]];
    simpl;
    try (destruct (py_float (ParameterForm.param_a_input form)) as [a |]; [| done]);
    try (destruct (py_float (ParameterForm.param_t0_input form)) as [t0 |]; [| done]);
    intros [= <-]; simpl;
    (split; [unfold signal_types; repeat constructor |]);
    (split; [by eexists |]);
    split; split; intros H; try done; try (by eexists);
      by destruct H as [? [=]].
Qed.

Lemma get_parameters_keys_pulse :
  ∃ prm,
    ParameterForm.get_parameters ParameterForm.float_of_sample_text
      (ParameterForm.initial_form 1) = Ok prm
    ∧ MainWindow.signal_type prm = "pulse"
    ∧ is_Some (MainWindow.signal_params prm !! "a").
Proof.
  eexists. split; [reflexivity |].
  destruct (get_parameters_keys ParameterForm.float_of_sample_text
              (ParameterForm.initial_form 1) _ ltac:(simpl; lia) eq_refl)
    as (_ & _ & Ha & _).
  split; [reflexivity |]. apply Ha. reflexivity.
Defined.

(** X26.  [get_parameters] reads the width field only when the kind is the
    pulse and the delay field only when it is the delayed step: for any
    other index the text of that field, a text that is no number included,
    does not change the result. *)
Theorem get_parameters_ignores_hidden_fields (py_float : string → result float)
    (r l c amplitude a a' t0 t0' : string) (index : Z) :
  (index ≠ 1 →
   ParameterForm.get_parameters py_float
     (ParameterForm.mk r l c index amplitude a t0)
   = ParameterForm.get_parameters py_float
       (ParameterForm.mk r l c index amplitude a' t0))%Z
  ∧ (index ≠ 3 →
     ParameterForm.get_parameters py_float
       (ParameterForm.mk r l c index amplitude a t0)
     = ParameterForm.get_parameters py_float
         (ParameterForm.mk r l c index amplitude a t0'))%Z.
Proof.
  unfold ParameterForm.get_parameters; simpl.
  split; intros Hidx; repeat case_decide; done.
Qed.

Lemma get_parameters_ignores_hidden_fields_step :
  ParameterForm.get_parameters ParameterForm.float_of_sample_text
    (ParameterForm.mk "100" "0.1" "0.00001" 0 "10" "abc" "0.001")
  = ParameterForm.get_parameters ParameterForm.float_of_sample_text
      (ParameterForm.initial_form 0).
Proof.
  apply (get_parameters_ignores_hidden_fields ParameterForm.float_of_sample_text
           "100" "0.1" "0.00001" "10" "abc" "0.001" "0.001" "0.001" 0).
  lia.
Defined.
